(** * utter: the structural dumper (dump.go) and the pointer walker (walk.go)

    A shallow embedding of [dumpState.dump], [dumpPtr], [dumpSlice], [fdump]
    and of [walk], [walkPtr], [walkSlice], over an explicit model of the
    [reflect.Value]s the Go code inspects.

    - A Go value is a [Value]; what a non-nil pointer points at is read from
      a [Heap], a function from addresses to values, so that cyclic data is
      a finite heap whose pointers lead back to one another.
    - [dumpState] is threaded explicitly through a small state monad whose
      outcome is a result, a Go panic, or the exhaustion of the fuel that
      bounds the recursion and the pointer-chain loop.
    - The io.Writer is the list of the byte strings passed to [Write], in
      order. *)

From Stdlib Require Import ZArith List String Ascii Bool Lia Permutation.
From Stdlib Require Import Sorting.Sorted.
From stdpp Require Import gmap strings list fin_maps.

Local Open Scope string_scope.
Local Open Scope list_scope.
Local Open Scope Z_scope.
Set Warnings "-register-all".

(** ** reflect: kinds, types and values *)

Module reflect.

(** [reflect.Kind]; [Other n] stands for a kind added to Go after the code
    was written (the [default] arm of [dump]). *)
Inductive Kind : Set :=
| Invalid | Bool
| Int | Int8 | Int16 | Int32 | Int64
| Uint | Uint8 | Uint16 | Uint32 | Uint64 | Uintptr
| Float32 | Float64 | Complex64 | Complex128
| Array | Chan | Func | Interface | Map | Ptr | Slice | String | Struct
| UnsafePointer
| Other (n : N).

Definition Kind_eq_dec : forall k1 k2 : Kind, {k1 = k2} + {k1 <> k2}.
Proof. decide equality. apply N.eq_dec. Defined.

End reflect.

#[global] Instance Kind_eq_decision : EqDecision reflect.Kind := reflect.Kind_eq_dec.

(** The naming part of a [reflect.Type]: the results of its [String()],
    [PkgPath()] and [Name()] methods. *)
Record rtype : Set := mkType {
  tString : string;
  tPkgPath : string;
  tName : string
}.

(** [reflect.StructField], the two members the code reads. *)
Record StructField : Set := mkField {
  Name : string;
  PkgPath : string
}.

Inductive intKind : Set := KInt8 | KInt16 | KInt32 | KInt64 | KInt.
Inductive uintKind : Set := KUint8 | KUint16 | KUint32 | KUint64 | KUint.
Inductive floatKind : Set := KFloat32 | KFloat64.
Inductive complexKind : Set := KComplex64 | KComplex128.
Inductive handleKind : Set := KUnsafePointer | KChan | KFunc.

(** A [reflect.Value].  Addresses ([uintptr]) are integers.  A float carries
    the IEEE-754 bit pattern of [v.Float()] (a float64), a complex number the
    bit patterns of its two parts.  A pointer is nil or an address; an
    interface is nil or holds its dynamic value; a slice or a map is nil or
    holds its elements, a map in its internal iteration order. *)
Inductive Value : Type :=
| VInvalid
| VBool (t : rtype) (b : bool)
| VInt (t : rtype) (k : intKind) (i : Z)
| VUint (t : rtype) (k : uintKind) (u : Z)
| VUintptr (t : rtype) (u : Z)
| VFloat (t : rtype) (k : floatKind) (bits : Z)
| VComplex (t : rtype) (k : complexKind) (re im : Z)
| VString (t : rtype) (s : string)
| VPtr (t : rtype) (p : option Z)
| VInterface (t : rtype) (e : option Value)
| VSlice (t : rtype) (es : option (list Value))
| VArray (t : rtype) (es : list Value)
| VMap (t : rtype) (kvs : option (list (Value * Value)))
| VStruct (t : rtype) (fs : list (StructField * Value))
| VHandle (t : rtype) (k : handleKind) (p : Z)
| VOther (t : rtype) (n : N).

(** The memory the pointers of the inspected value point into: [h a] is the
    value stored at address [a].  The dumper never writes to it. *)
Definition Heap : Type := Z -> Value.

Definition intKindOf (k : intKind) : reflect.Kind :=
  match k with
  | KInt8 => reflect.Int8 | KInt16 => reflect.Int16 | KInt32 => reflect.Int32
  | KInt64 => reflect.Int64 | KInt => reflect.Int
  end.

Definition uintKindOf (k : uintKind) : reflect.Kind :=
  match k with
  | KUint8 => reflect.Uint8 | KUint16 => reflect.Uint16
  | KUint32 => reflect.Uint32 | KUint64 => reflect.Uint64
  | KUint => reflect.Uint
  end.

Definition floatKindOf (k : floatKind) : reflect.Kind :=
  match k with KFloat32 => reflect.Float32 | KFloat64 => reflect.Float64 end.

Definition complexKindOf (k : complexKind) : reflect.Kind :=
  match k with
  | KComplex64 => reflect.Complex64 | KComplex128 => reflect.Complex128
  end.

Definition handleKindOf (k : handleKind) : reflect.Kind :=
  match k with
  | KUnsafePointer => reflect.UnsafePointer
  | KChan => reflect.Chan
  | KFunc => reflect.Func
  end.

(** [v.Kind()] *)
Definition Kind (v : Value) : reflect.Kind :=
  match v with
  | VInvalid => reflect.Invalid
  | VBool _ _ => reflect.Bool
  | VInt _ k _ => intKindOf k
  | VUint _ k _ => uintKindOf k
  | VUintptr _ _ => reflect.Uintptr
  | VFloat _ k _ => floatKindOf k
  | VComplex _ k _ _ => complexKindOf k
  | VString _ _ => reflect.String
  | VPtr _ _ => reflect.Ptr
  | VInterface _ _ => reflect.Interface
  | VSlice _ _ => reflect.Slice
  | VArray _ _ => reflect.Array
  | VMap _ _ => reflect.Map
  | VStruct _ _ => reflect.Struct
  | VHandle _ k _ => handleKindOf k
  | VOther _ n => reflect.Other n
  end.

(** [v.Type()]: Go panics on the zero Value, hence the option. *)
Definition Type_ (v : Value) : option rtype :=
  match v with
  | VInvalid => None
  | VBool t _ | VInt t _ _ | VUint t _ _ | VUintptr t _ | VFloat t _ _
  | VComplex t _ _ _ | VString t _ | VPtr t _ | VInterface t _
  | VSlice t _ | VArray t _ | VMap t _ | VStruct t _ | VHandle t _ _
  | VOther t _ => Some t
  end.

(** [v.IsNil()], for the kinds the code asks it of. *)
Definition IsNil (v : Value) : bool :=
  match v with
  | VPtr _ None | VInterface _ None | VSlice _ None | VMap _ None => true
  | _ => false
  end.

Lemma rtype_eq_dec (t1 t2 : rtype) : {t1 = t2} + {t1 <> t2}.
Proof. decide equality; apply string_dec. Defined.

Lemma StructField_eq_dec (f1 f2 : StructField) : {f1 = f2} + {f1 <> f2}.
Proof. decide equality; apply string_dec. Defined.

(** Equality of two values of the model, used to look a key up in a map. *)
Fixpoint Value_eq_dec (x y : Value) {struct x} : {x = y} + {x <> y}.
Proof.
  decide equality;
    try apply rtype_eq_dec; try apply Z.eq_dec; try apply N.eq_dec;
    try apply string_dec; try apply Bool.bool_dec;
    try (decide equality; fail).
  all: repeat (first [ apply Value_eq_dec | apply StructField_eq_dec
                     | apply Z.eq_dec | apply List.list_eq_dec
                     | decide equality ]).
Defined.

#[global] Instance rtype_eq_decision : EqDecision rtype := rtype_eq_dec.
#[global] Instance Value_eq_decision : EqDecision Value := Value_eq_dec.

(** [v.String()]: the string itself for a string, and for every other kind
    the type name between "<" and " Value>", whatever the value. *)
Definition valueString (v : Value) : string :=
  match v with
  | VString _ s => s
  | _ => match Type_ v with
         | Some t => ("<" ++ tString t ++ " Value>")%string
         | None => "<invalid Value>"
         end
  end.

(** [v.Len()] and [v.Index(i)] of a slice or an array: its elements. *)
Definition elems (v : Value) : list Value :=
  match v with
  | VSlice _ (Some es) => es
  | VArray _ es => es
  | _ => []
  end.

(** [v.MapKeys()]: the keys in the map's internal iteration order. *)
Definition MapKeys (kvs : list (Value * Value)) : list Value := map fst kvs.

(** [v.MapIndex(key)]: the value stored under [key], the zero Value when
    there is none. *)
Definition MapIndex (kvs : list (Value * Value)) (key : Value) : Value :=
  match find (fun kv => bool_decide (fst kv = key)) kvs with
  | Some kv => snd kv
  | None => VInvalid
  end.

(** ** Byte strings *)

(** [bytes.Repeat(b, count)] and [strings.Repeat]: Go panics on a negative
    count. *)
Definition bytesRepeat (b : string) (count : Z) : option string :=
  if count <? 0 then None
  else Some (String.concat "" (repeat b (Z.to_nat count))).

(** [bytes.Replace(s, old, new, -1)] for a non-empty [old]: every
    non-overlapping occurrence, leftmost first.  [skip] counts the bytes of
    an occurrence just replaced that are still to be dropped. *)
Fixpoint bytesReplaceFrom (old new : string) (skip : nat) (s : string) : string :=
  match s with
  | EmptyString => EmptyString
  | String c s' =>
      match skip with
      | S k => bytesReplaceFrom old new k s'
      | O =>
          if String.prefix old s
          then (new ++ bytesReplaceFrom old new (String.length old - 1) s')%string
          else String c (bytesReplaceFrom old new O s')
      end
  end.

Definition bytesReplace (s old new : string) : string :=
  bytesReplaceFrom old new O s.

(** [typeBytes[0] == '*']: indexing an empty byte slice panics. *)
Definition firstIsStar (typeBytes : string) : option bool :=
  match typeBytes with
  | EmptyString => None
  | String c _ => Some (Ascii.eqb c "*"%char)
  end.

(** The regular expressions [cCharRE], [cUnsignedCharRE], [cUint8tCharRE]:
    a pattern that starts with ^.* and ends with $ matches the strings that
    end with the literal text in between. *)
Definition hasSuffix (suffix s : string) : bool :=
  let n := String.length s in
  let m := String.length suffix in
  (m <=? n)%nat && String.eqb (String.substring (n - m) m s) suffix.

Definition cCharRE (s : string) : bool := hasSuffix "._Ctype_char" s.
Definition cUnsignedCharRE (s : string) : bool := hasSuffix "._Ctype_unsignedchar" s.
Definition cUint8tCharRE (s : string) : bool := hasSuffix "._Ctype_uint8_t" s.

(** Modelled from the spec: the byte-string constants of common.go, which is
    not among the sources; their text is the one the expected outputs of the
    package tests show, such as int8(127), &float64(1) and
    map[interface{}]interface{}{ followed by a line break. *)
Definition newline : string := String (Ascii.ascii_of_nat 10) EmptyString.
Definition ampersandBytes : string := "&".
Definition openParenBytes : string := "(".
Definition closeParenBytes : string := ")".
Definition nilBytes : string := "nil".
Definition newlineBytes : string := newline.
Definition commaNewlineBytes : string := ("," ++ newline)%string.
Definition colonSpaceBytes : string := ": ".
Definition openBraceNewlineBytes : string := ("{" ++ newline)%string.
Definition closeBraceBytes : string := "}".
Definition hexZeroBytes : string := "0x".
Definition interfaceBytes : string := "interface{}".
Definition interfaceTypeBytes : string := "interface {}".

(** Modelled from the spec: ConfigState of config.go, which is not among the
    sources; the fields are the ones dump.go reads, listed in section 6 of
    the specification. *)
Record ConfigState : Set := mkConfig {
  Indent : string;
  SortKeys : bool;
  IgnoreUnexported : bool;
  ElideType : bool;
  BytesWidth : Z;
  CommentBytes : bool;
  CommentPointers : bool
}.

(** What dump.go takes from common.go and from the libraries fmt, strconv
    and reflect, none of which is among the sources.  A printing helper is
    represented by the byte strings it passes to the writer. *)
Record Common : Type := mkCommon {
  circularBytes : string;
  invalidAngleBytes : string;
  openCommentBytes : string;
  closeCommentBytes : string;
  pointerChainBytes : string;
  printBool : bool -> list string;
  printInt : Z -> Z -> list string;
  printUint : Z -> Z -> list string;
  printFloat : Z -> Z -> bool -> list string;
  printComplex : Z -> Z -> Z -> list string;
  printHexPtr : Z -> bool -> list string;
  hexDump : list Z -> string -> Z -> bool -> list string;
  strconvQuote : string -> string;
  (** [fmt.Fprintf(w, "%v", v.Interface())] *)
  fmtValue : Value -> list string;
  (** [v.CanInterface()] and [v.CanAddr()] *)
  CanInterface : Value -> bool;
  CanAddr : Value -> bool;
  (** the float64 with the given bits, converted to uint8 *)
  convertFloatUint8 : Z -> Z
}.

(** Modelled from the spec: unsafeReflectValue of bypass.go, which is not
    among the sources.  It lifts the access restrictions of a value and
    leaves the data it denotes as it is. *)
Definition unsafeReflectValue (v : Value) : Value := v.

(** ** Ordering of map keys *)

(** A float64 given by its bits: not-a-number, and the position of any other
    number on the line (the two zeros share position 0). *)
Definition floatIsNaN (bits : Z) : bool :=
  Z.land bits 9223372036854775807 >? 9218868437227405312.

Definition floatRank (bits : Z) : Z :=
  if Z.testbit bits 63
  then - Z.land bits 9223372036854775807
  else Z.land bits 9223372036854775807.

(** [a < b] on float64: false as soon as one side is not a number. *)
Definition floatLess (a b : Z) : bool :=
  negb (floatIsNaN a) && negb (floatIsNaN b) && (floatRank a <? floatRank b).

(** Modelled from the spec: the comparison of sortValues in common.go, which
    is not among the sources.  Section 4.3: keys of the naturally ordered
    scalar kinds (boolean, integers of every width, floating point, text)
    compare by their native order, keys of every other kind by their textual
    form, which the package documentation names as the output of
    reflect.Value.String(). *)
Definition valueLess (a b : Value) : bool :=
  match a, b with
  | VBool _ x, VBool _ y => negb x && y
  | VInt _ _ x, VInt _ _ y => x <? y
  | VUint _ _ x, VUint _ _ y => x <? y
  | VUintptr _ x, VUintptr _ y => x <? y
  | VFloat _ _ x, VFloat _ _ y => floatLess x y
  | VString _ x, VString _ y => String.ltb x y
  | _, _ => String.ltb (valueString a) (valueString b)
  end.

(** Insertion of [x], which stood before every element of the sorted [l]:
    it goes in front of the first element that is not less than it. *)
Fixpoint insertValue (x : Value) (l : list Value) : list Value :=
  match l with
  | [] => [x]
  | y :: l' => if valueLess y x then y :: insertValue x l' else x :: l
  end.

(** Modelled from the spec: sortValues of common.go, which is not among the
    sources.  It orders the keys by [valueLess]; keys that [valueLess] does
    not separate keep the order in which they came. *)
Definition sortValues (values : list Value) : list Value :=
  fold_right insertValue [] values.

(** ** The state of a dump *)

(** [dumpState].  [w] is the writer, as the byte strings written so far;
    [nodes] is the set walk.go records into. *)
Record dumpState : Type := mkState {
  w : list string;
  depth : Z;
  pointers : gmap Z Z;
  ignoreNextType : bool;
  ignoreNextIndent : bool;
  cs : ConfigState;
  nodes : list (Z * rtype)
}.

(** How a call ends: it returns, it panics, or the fuel that bounds the
    recursion ran out before it returned. *)
Inductive outcome (A : Type) : Type :=
| Ok (a : A)
| Panic (msg : string)
| OutOfFuel.

Arguments Ok {A} a.
Arguments Panic {A} msg.
Arguments OutOfFuel {A}.

(** A method of [*dumpState] that returns nothing. *)
Definition action : Type := dumpState -> outcome dumpState.

Definition andThen (a b : action) : action :=
  fun d => match a d with
           | Ok d' => b d'
           | Panic msg => Panic msg
           | OutOfFuel => OutOfFuel
           end.

Declare Scope action_scope.
Delimit Scope action_scope with act.
Bind Scope action_scope with action.
Notation "a ;; b" := (andThen a b)
  (at level 100, b at level 200, right associativity) : action_scope.
Local Open Scope action_scope.

Definition skip : action := fun d => Ok d.

(** An action that reads the fields of the state it starts from. *)
Definition withState (f : dumpState -> action) : action := fun d => f d d.

Definition panic (msg : string) : action := fun _ => Panic msg.

(** [d.w.Write(b)] *)
Definition write (b : string) : action :=
  fun d => Ok (mkState (w d ++ [b]) (depth d) (pointers d) (ignoreNextType d)
                       (ignoreNextIndent d) (cs d) (nodes d)).

(** The writes of a printing helper, in order. *)
Fixpoint writeAll (bs : list string) : action :=
  match bs with
  | [] => skip
  | b :: bs' => write b ;; writeAll bs'
  end.

Definition setDepth (n : Z) : action :=
  fun d => Ok (mkState (w d) n (pointers d) (ignoreNextType d)
                       (ignoreNextIndent d) (cs d) (nodes d)).

(** [d.depth++] and [d.depth--] *)
Definition incDepth : action := fun d => setDepth (depth d + 1) d.
Definition decDepth : action := fun d => setDepth (depth d - 1) d.

Definition setPointers (m : gmap Z Z) (d : dumpState) : dumpState :=
  mkState (w d) (depth d) m (ignoreNextType d) (ignoreNextIndent d) (cs d)
          (nodes d).

Definition setIgnoreNextType (b : bool) : action :=
  fun d => Ok (mkState (w d) (depth d) (pointers d) b (ignoreNextIndent d)
                       (cs d) (nodes d)).

Definition setIgnoreNextIndent (b : bool) : action :=
  fun d => Ok (mkState (w d) (depth d) (pointers d) (ignoreNextType d) b
                       (cs d) (nodes d)).

(** [d.nodes[n] = struct{}{}] *)
Definition addNode (n : Z * rtype) (d : dumpState) : dumpState :=
  mkState (w d) (depth d) (pointers d) (ignoreNextType d) (ignoreNextIndent d)
          (cs d)
          (if bool_decide (n ∈ nodes d) then nodes d else nodes d ++ [n]).

(** A [for] loop over the elements of a list. *)
Fixpoint forEach {A : Type} (body : A -> action) (l : list A) : action :=
  match l with
  | [] => skip
  | x :: l' => body x ;; forEach body l'
  end.

(** The loop at the head of dumpPtr and of walkPtr:
    [for k, depth := range d.pointers { if depth >= d.depth { delete } }]. *)
Definition purgePointers (d : dumpState) : dumpState :=
  setPointers (filter (fun kv => snd kv < depth d) (pointers d)) d.

(** ** reflect accessors that need the heap, and conversions *)

(** [v.Pointer()] *)
Definition Pointer (v : Value) : Z :=
  match v with
  | VPtr _ (Some a) => a
  | VHandle _ _ p => p
  | _ => 0
  end.

(** [v.Elem()]: what a pointer points at, what an interface holds; the zero
    Value for a nil one. *)
Definition Elem (h : Heap) (v : Value) : Value :=
  match v with
  | VPtr _ (Some a) => h a
  | VInterface _ (Some e) => e
  | _ => VInvalid
  end.

(** [vt.ConvertibleTo(uint8Type)], by the kind of [vt]: the integer and the
    floating-point kinds are. *)
Definition ConvertibleToUint8 (k : reflect.Kind) : bool :=
  match k with
  | reflect.Int | reflect.Int8 | reflect.Int16 | reflect.Int32 | reflect.Int64
  | reflect.Uint | reflect.Uint8 | reflect.Uint16 | reflect.Uint32
  | reflect.Uint64 | reflect.Uintptr | reflect.Float32 | reflect.Float64 => true
  | _ => false
  end.

(** [uint8(vv.Convert(uint8Type).Uint())]; [Convert] panics on a value that
    is not convertible. *)
Definition convertUint8 (env : Common) (vv : Value) : option Z :=
  match vv with
  | VInt _ _ i => Some (i mod 256)
  | VUint _ _ u => Some (u mod 256)
  | VUintptr _ u => Some (u mod 256)
  | VFloat _ _ bits => Some (convertFloatUint8 env bits)
  | _ => None
  end.

(** The bytes a [[]uint8] is made of. *)
Definition uint8Of (vv : Value) : option Z :=
  match vv with
  | VUint _ KUint8 u => Some u
  | _ => None
  end.

Fixpoint mapOption {A B : Type} (f : A -> option B) (l : list A) : option (list B) :=
  match l with
  | [] => Some []
  | x :: l' =>
      match f x, mapOption f l' with
      | Some y, Some ys => Some (y :: ys)
      | _, _ => None
      end
  end.

(** [iface.([]uint8)] on [vs.Slice(0, numEntries).Interface()]: the dynamic
    type is [[]uint8] when [vs] is a slice whose type is the unnamed
    [[]uint8], or an array whose element type is [uint8] itself. *)
Definition assertUint8Slice (vs : Value) : bool :=
  match vs with
  | VSlice t _ => String.eqb (tString t) "[]uint8"
  | VArray _ (e0 :: _) =>
      match Type_ e0 with
      | Some vt => String.eqb (tString vt) "uint8"
      | None => false
      end
  | _ => false
  end.

(** isDefault; the kind of the type is passed next to its names. *)
Definition isDefault (typ : rtype) (kind : reflect.Kind) : bool :=
  if negb (String.eqb (tPkgPath typ) "") || String.eqb (tName typ) "" then false
  else bool_decide (kind = reflect.Int) || bool_decide (kind = reflect.Float64)
       || bool_decide (kind = reflect.String) || bool_decide (kind = reflect.Bool).

(** isCompound *)
Definition isCompound (kind : reflect.Kind) : bool :=
  bool_decide (kind = reflect.Struct) || bool_decide (kind = reflect.Slice)
  || bool_decide (kind = reflect.Array) || bool_decide (kind = reflect.Map).

(** The kinds of [case reflect.Invalid, reflect.Struct, reflect.Slice,
    reflect.Array, reflect.Map:], which get no parenthesis. *)
Definition bareKind (kind : reflect.Kind) : bool :=
  bool_decide (kind = reflect.Invalid) || isCompound kind.

(** [wantType] as dump computes it. *)
Definition wantTypeOf (c : ConfigState) (v : Value) (typ : rtype)
    (wasPtr static : bool) : bool :=
  if ElideType c then
    let defType := negb wasPtr && isDefault typ (Kind v) in
    (negb (static || defType) || isCompound (Kind v))
    && negb (bool_decide (Kind v = reflect.Interface) && IsNil v)
  else true.

(** unpackValue *)
Definition unpackValue (h : Heap) (v : Value) : Value * bool * bool :=
  if bool_decide (Kind v = reflect.Interface) && negb (IsNil v)
  then (Elem h v, bool_decide (Kind v = reflect.Ptr), false)
  else (v, bool_decide (Kind v = reflect.Ptr), true).

(** What the loop of dumpPtr leaves in its local variables. *)
Record chain : Type := mkChain {
  ve : Value;
  indirects : Z;
  pointerChain : list Z;
  nilFound : bool;
  cycleFound : bool
}.

(** [pd, ok := d.pointers[addr]; ok && pd < d.depth] *)
Definition cycleAt (d : dumpState) (addr : Z) : bool :=
  match pointers d !! addr with
  | Some pd => pd <? depth d
  | None => false
  end.

(** [d.pointers[addr] = d.depth] *)
Definition recordPointer (addr : Z) (d : dumpState) : dumpState :=
  setPointers (<[addr := depth d]> (pointers d)) d.

(** ** dump.go *)

Section Dump.

Variable env : Common.
Variable h : Heap.

(** indent *)
Definition indent : action := withState (fun d =>
  if ignoreNextIndent d then setIgnoreNextIndent false
  else match bytesRepeat (Indent (cs d)) (depth d) with
       | Some s => write s
       | None => panic "bytes: negative Repeat count"
       end).

(** The [for ve.Kind() == reflect.Ptr] loop of dumpPtr; one unit of fuel
    per pointer followed. *)
Fixpoint dumpPtrLoop (fuel : nat) (ve : Value) (indirects : Z)
    (pointerChain : list Z) (d : dumpState) {struct fuel}
    : outcome (chain * dumpState) :=
  if bool_decide (Kind ve = reflect.Ptr) then
    if IsNil ve then Ok (mkChain ve indirects pointerChain true false, d)
    else
      match fuel with
      | O => OutOfFuel
      | S fuel' =>
          let indirects := indirects + 1 in
          let addr := Pointer ve in
          let pointerChain :=
            if CommentPointers (cs d) then pointerChain ++ [addr]
            else pointerChain in
          if cycleAt d addr
          then Ok (mkChain ve (indirects - 1) pointerChain false true, d)
          else
            let d := recordPointer addr d in
            let ve := Elem h ve in
            if bool_decide (Kind ve = reflect.Interface) then
              if IsNil ve
              then Ok (mkChain ve indirects pointerChain true false, d)
              else dumpPtrLoop fuel' (Elem h ve) indirects pointerChain d
            else dumpPtrLoop fuel' ve indirects pointerChain d
      end
  else Ok (mkChain ve indirects pointerChain false false, d).

(** "Display type information": the ampersands, then the type name, in
    parentheses when it starts with a star. *)
Definition writePtrType (c : chain) : action :=
  match bytesRepeat ampersandBytes (indirects c) with
  | None => panic "bytes: negative Repeat count"
  | Some amps =>
      write amps ;;
      match Type_ (ve c) with
      | None => panic "reflect: call of reflect.Value.Type on zero Value"
      | Some t =>
          let typeBytes := tString t in
          match firstIsStar typeBytes with
          | None => panic "index out of range"
          | Some star =>
              (if star then write openParenBytes else skip) ;;
              write (bytesReplace typeBytes interfaceTypeBytes interfaceBytes) ;;
              (if star then write closeParenBytes else skip)
          end
      end
  end.

(** [for i, addr := range pointerChain] *)
Fixpoint writePointerChain (i : nat) (pointerChain : list Z) : action :=
  match pointerChain with
  | [] => skip
  | addr :: rest =>
      (if (0 <? i)%nat then write (pointerChainBytes env) else skip) ;;
      writeAll (printHexPtr env addr true) ;;
      writePointerChain (S i) rest
  end.

(** "Display pointer information." *)
Definition writePtrComment (c : chain) : action :=
  if (0 <? length (pointerChain c))%nat then
    write (openCommentBytes env) ;;
    writePointerChain 0 (pointerChain c) ;;
    write (closeCommentBytes env)
  else skip.

(** dumpPtr; [dump] is the function it recurses into. *)
Definition dumpPtr (dump : Value -> bool -> bool -> action) (fuel : nat)
    (v : Value) : action := fun d =>
  match dumpPtrLoop fuel v 0 [] (purgePointers d) with
  | Panic msg => Panic msg
  | OutOfFuel => OutOfFuel
  | Ok (c, d') =>
      (writePtrType c ;;
       writePtrComment c ;;
       if nilFound c then
         write openParenBytes ;; write nilBytes ;; write closeParenBytes
       else if cycleFound c then
         write (circularBytes env)
       else
         setIgnoreNextType true ;; dump (ve c) true false) d'
  end.

(** The first half of dumpSlice: the buffer to hexdump, if the elements
    are to be hexdumped. *)
Definition convertAll (v : Value) (e0 : Value) : outcome (option (list Z)) :=
  if ConvertibleToUint8 (Kind e0) then
    match mapOption (convertUint8 env) (elems v) with
    | Some buf => Ok (Some buf)
    | None => Panic "reflect.Value.Convert: value cannot be converted"
    end
  else Ok None.

Definition hexBuffer (v : Value) : outcome (option (list Z)) :=
  match elems v with
  | [] => Ok None
  | e0 :: _ =>
      match Type_ e0 with
      | None => Panic "reflect: call of reflect.Value.Type on zero Value"
      | Some vt =>
          let vts := tString vt in
          if cCharRE vts || cUnsignedCharRE vts || cUint8tCharRE vts then
            convertAll v e0
          else if bool_decide (Kind e0 = reflect.Uint8) then
            let vs :=
              if negb (CanInterface env v) || negb (CanAddr env v)
              then unsafeReflectValue v else v in
            if assertUint8Slice vs then
              match mapOption uint8Of (elems vs) with
              | Some buf => Ok (Some buf)
              | None => Panic "element of a []uint8 that is not a uint8"
              end
            else convertAll v e0
          else Ok None
      end
  end.

(** dumpSlice *)
Definition dumpSlice (dump : Value -> bool -> bool -> action) (v : Value)
    : action :=
  match hexBuffer v with
  | Panic msg => panic msg
  | OutOfFuel => fun _ => OutOfFuel
  | Ok (Some buf) => withState (fun d =>
      match bytesRepeat (Indent (cs d)) (depth d) with
      | None => panic "strings: negative Repeat count"
      | Some indent =>
          writeAll (hexDump env buf indent (BytesWidth (cs d))
                            (CommentBytes (cs d)))
      end)
  | Ok None =>
      forEach (fun vi =>
                 let '(x, wasPtr, static) := unpackValue h vi in
                 dump x wasPtr static ;; write commaNewlineBytes)
              (elems v)
  end.

(** The [switch kind] of dump. *)
Definition dumpKind (dump : Value -> bool -> bool -> action) (v : Value)
    (wantType : bool) : action :=
  let dumpUnpacked (x : Value) : action :=
    let '(x', wasPtr, static) := unpackValue h x in dump x' wasPtr static in
  match v with
  | VInvalid => skip
  | VBool _ b => writeAll (printBool env b)
  | VInt _ _ i => writeAll (printInt env i 10)
  | VUint _ _ u => write hexZeroBytes ;; writeAll (printUint env u 16)
  | VFloat _ KFloat32 f => writeAll (printFloat env f 32 (negb wantType))
  | VFloat _ KFloat64 f => writeAll (printFloat env f 64 (negb wantType))
  | VComplex _ KComplex64 re im => writeAll (printComplex env re im 32)
  | VComplex _ KComplex128 re im => writeAll (printComplex env re im 64)
  | VSlice _ None =>
      write openParenBytes ;; write nilBytes ;; write closeParenBytes
  | VSlice _ (Some _) | VArray _ _ =>
      write openBraceNewlineBytes ;;
      incDepth ;;
      dumpSlice dump v ;;
      decDepth ;;
      indent ;;
      write closeBraceBytes
  | VString _ s => write (strconvQuote env s)
  | VInterface _ _ => if IsNil v then write nilBytes else skip
  | VPtr _ _ => skip
  | VMap _ None =>
      write openParenBytes ;; write nilBytes ;; write closeParenBytes
  | VMap _ (Some kvs) =>
      write openBraceNewlineBytes ;;
      incDepth ;;
      withState (fun d =>
         let keys := MapKeys kvs in
         let keys := if SortKeys (cs d) then sortValues keys else keys in
         forEach (fun key =>
                    dumpUnpacked key ;;
                    write colonSpaceBytes ;;
                    setIgnoreNextIndent true ;;
                    dumpUnpacked (MapIndex kvs key) ;;
                    write commaNewlineBytes)
                 keys) ;;
      decDepth ;;
      indent ;;
      write closeBraceBytes
  | VStruct _ fs =>
      write openBraceNewlineBytes ;;
      incDepth ;;
      forEach (fun f : StructField * Value => withState (fun d =>
                 let vtf := fst f in
                 if IgnoreUnexported (cs d) && negb (String.eqb (PkgPath vtf) "")
                 then skip
                 else
                   indent ;;
                   write (Name vtf) ;;
                   write colonSpaceBytes ;;
                   setIgnoreNextIndent true ;;
                   dumpUnpacked (snd f) ;;
                   write commaNewlineBytes))
              fs ;;
      decDepth ;;
      indent ;;
      write closeBraceBytes
  | VUintptr _ u => writeAll (printHexPtr env u false)
  | VHandle _ _ p => writeAll (printHexPtr env p true)
  | VOther _ _ =>
      if CanInterface env v then writeAll (fmtValue env v)
      else write (valueString v)
  end.

(** dump; one unit of fuel per call. *)
Fixpoint dump (fuel : nat) (v : Value) (wasPtr static : bool) {struct fuel}
    : action :=
  match fuel with
  | O => fun _ => OutOfFuel
  | S fuel' =>
      let kind := Kind v in
      if bool_decide (kind = reflect.Invalid) then
        write (invalidAngleBytes env)
      else if bool_decide (kind = reflect.Ptr) then
        indent ;; dumpPtr (dump fuel') fuel' v
      else
        match Type_ v with
        | None => panic "reflect: call of reflect.Value.Type on zero Value"
        | Some typ => withState (fun d =>
            let wantType := wantTypeOf (cs d) v typ wasPtr static in
            (if ignoreNextType d then skip
             else
               indent ;;
               if wantType
               then write (bytesReplace (tString typ) interfaceTypeBytes
                                        interfaceBytes)
               else skip) ;;
            setIgnoreNextType false ;;
            (if wantType && negb (bareKind kind)
             then write openParenBytes else skip) ;;
            dumpKind (dump fuel') v wantType ;;
            (if wantType && negb (bareKind kind)
             then write closeParenBytes else skip))
        end
  end.

(** fdump.  The result is the writer and, when one was made, the
    [dumpState] at the end; the nil branch makes none. *)
Definition fdump (fuel : nat) (c : ConfigState) (wr : list string)
    (a : option Value) : outcome (list string * option dumpState) :=
  match a with
  | None =>
      Ok (wr ++ [interfaceBytes; openParenBytes; nilBytes; closeParenBytes;
                 newlineBytes], None)
  | Some v =>
      let d := mkState wr 0 ∅ false false c [] in
      match (dump fuel v false false ;; write newlineBytes) d with
      | Ok d' => Ok (w d', Some d')
      | Panic msg => Panic msg
      | OutOfFuel => OutOfFuel
      end
  end.

(** Fdump, Sdump and Dump, with the package variable [Config] and, for
    Dump, what os.Stdout holds so far as arguments.  Sdump returns the
    text written to its fresh buffer. *)
Definition Fdump (Config : ConfigState) (fuel : nat) (wr : list string)
    (a : option Value) : outcome (list string) :=
  match fdump fuel Config wr a with
  | Ok r => Ok (fst r)
  | Panic msg => Panic msg
  | OutOfFuel => OutOfFuel
  end.

Definition Sdump (Config : ConfigState) (fuel : nat) (a : option Value)
    : outcome string :=
  match fdump fuel Config [] a with
  | Ok r => Ok (String.concat "" (fst r))
  | Panic msg => Panic msg
  | OutOfFuel => OutOfFuel
  end.

Definition Dump (Config : ConfigState) (fuel : nat) (stdout : list string)
    (a : option Value) : outcome (list string) :=
  Fdump Config fuel stdout a.

End Dump.

(** ** walk.go *)

Section Walk.

Variable h : Heap.

(** The [for ve.Kind() == reflect.Ptr] loop of walkPtr.  The result is the
    last [ve] and whether the loop was left by [nilFound] or
    [cycleFound]. *)
Fixpoint walkPtrLoop (fuel : nat) (ve : Value) (d : dumpState) {struct fuel}
    : outcome (Value * bool * bool * dumpState) :=
  if bool_decide (Kind ve = reflect.Ptr) then
    if IsNil ve then Ok (ve, true, false, d)
    else
      match fuel with
      | O => OutOfFuel
      | S fuel' =>
          let addr := Pointer ve in
          if cycleAt d addr then Ok (ve, false, true, d)
          else
            let d := recordPointer addr d in
            match Type_ ve with
            | None => Panic "reflect: call of reflect.Value.Type on zero Value"
            | Some t =>
                let d := addNode (addr, t) d in
                let ve := Elem h ve in
                if bool_decide (Kind ve = reflect.Interface) && IsNil ve
                then Ok (ve, true, false, d)
                else
                  let ve :=
                    if bool_decide (Kind ve = reflect.Interface)
                    then Elem h ve else ve in
                  match Type_ ve with
                  | None =>
                      Panic "reflect: call of reflect.Value.Type on zero Value"
                  | Some t' => walkPtrLoop fuel' ve (addNode (addr, t') d)
                  end
            end
      end
  else Ok (ve, false, false, d).

(** walkPtr; [walk] is the function it recurses into. *)
Definition walkPtr (walk : Value -> bool -> bool -> Z -> action)
    (fuel : nat) (v : Value) : action := fun d =>
  match walkPtrLoop fuel v (purgePointers d) with
  | Panic msg => Panic msg
  | OutOfFuel => OutOfFuel
  | Ok (ve, nilFound, cycleFound, d') =>
      if negb nilFound && negb cycleFound then walk ve true false 0 d'
      else Ok d'
  end.

(** The calls [d.walk(d.unpackValue(x))] of the source give walk the three
    results of unpackValue and no [addr]; walk does not read [addr], and
    walkPtr passes 0. *)
Definition walkUnpacked (walk : Value -> bool -> bool -> Z -> action)
    (x : Value) : action :=
  let '(x', wasPtr, static) := unpackValue h x in walk x' wasPtr static 0.

(** walkSlice *)
Definition walkSlice (walk : Value -> bool -> bool -> Z -> action)
    (v : Value) : action :=
  incDepth ;;
  forEach (walkUnpacked walk) (elems v) ;;
  decDepth.

(** walk; one unit of fuel per call. *)
Fixpoint walk (fuel : nat) (v : Value) (wasPtr static : bool) (addr : Z)
    {struct fuel} : action :=
  match fuel with
  | O => fun _ => OutOfFuel
  | S fuel' =>
      let kind := Kind v in
      if bool_decide (kind = reflect.Invalid) then skip
      else if bool_decide (kind = reflect.Ptr) then
        walkPtr (walk fuel') fuel' v
      else
        match v with
        | VSlice _ None => skip
        | VSlice _ (Some _) | VArray _ _ => walkSlice (walk fuel') v
        | VMap _ None => skip
        | VMap _ (Some kvs) =>
            incDepth ;;
            forEach (fun key =>
                       walkUnpacked (walk fuel') key ;;
                       walkUnpacked (walk fuel') (MapIndex kvs key))
                    (MapKeys kvs) ;;
            decDepth
        | VStruct _ fs =>
            incDepth ;;
            forEach (fun f : StructField * Value => withState (fun d =>
                       if IgnoreUnexported (cs d)
                          && negb (String.eqb (PkgPath (fst f)) "")
                       then skip
                       else walkUnpacked (walk fuel') (snd f)))
                    fs ;;
            decDepth
        | _ => skip
        end
  end.

End Walk.

(** ** Concrete helpers for the examples *)

(** Decimal digits of a natural number, most significant first. *)
Fixpoint digitsFrom (fuel : nat) (n : N) (acc : string) : string :=
  match fuel with
  | O => acc
  | S fuel' =>
      let acc' := String (Ascii.ascii_of_N (48 + n mod 10)) acc in
      if (n / 10 =? 0)%N then acc' else digitsFrom fuel' (n / 10)%N acc'
  end.

Definition decimal (z : Z) : string :=
  let n := Z.to_N (Z.abs z) in
  let s := digitsFrom (S (N.to_nat (N.log2 n))) n EmptyString in
  if z <? 0 then String "-"%char s else s.

(** An instance of [Common] for the examples: decimal for every number,
    the texts of the released package for the markers. *)
Definition plainCommon : Common := {|
  circularBytes := "(<already shown>)";
  invalidAngleBytes := "<invalid>";
  openCommentBytes := " /*";
  closeCommentBytes := "*/ ";
  pointerChainBytes := "->";
  printBool := fun b => [if b then "true" else "false"];
  printInt := fun i _ => [decimal i];
  printUint := fun u _ => [decimal u];
  printFloat := fun f _ _ => [decimal f];
  printComplex := fun re im _ => [decimal re; "+"; decimal im; "i"];
  printHexPtr := fun p _ => [decimal p];
  hexDump := fun buf ind _ _ => ind :: map decimal buf;
  strconvQuote := fun s =>
    String (Ascii.ascii_of_nat 34)
           (s ++ String (Ascii.ascii_of_nat 34) EmptyString)%string;
  fmtValue := fun v => [valueString v];
  CanInterface := fun _ => true;
  CanAddr := fun _ => true;
  convertFloatUint8 := fun bits => bits mod 256
|}.

(** The default configuration: an indent of one space, rows of 16 bytes
    with their comment, everything else off. *)
Definition defaultConfig : ConfigState :=
  mkConfig " " false false false 16 true false.

Definition basicType (name : string) : rtype := mkType name "" name.
Definition unnamedType (str : string) : rtype := mkType str "" "".
Definition namedType (pkg name : string) : rtype :=
  mkType (pkg ++ "." ++ name)%string pkg name.

Definition intValue (i : Z) : Value := VInt (basicType "int") KInt i.

(** ** Notions the properties are stated with *)

(** The tracker entries recorded at a depth below [n] are the same in [d]
    and in [d']. *)
Definition frame (n : Z) (d d' : dumpState) : Prop :=
  forall a pd, pd < n -> (pointers d' !! a = Some pd <-> pointers d !! a = Some pd).

(** What a step of the traversal that returns keeps: the depth and the
    configuration are as before, the writer has only been appended to, and
    when the step started at depth [n] or deeper the entries recorded below
    [n] are untouched. *)
Definition keeps (n : Z) (a : action) : Prop :=
  forall d d', a d = Ok d' ->
    depth d' = depth d /\ cs d' = cs d /\ (exists out, w d' = w d ++ out)
    /\ (n <= depth d -> frame n d d').

(** ** Values and heaps of the examples *)

(** The state fdump starts a traversal from. *)
Definition startState (c : ConfigState) (wr : list string) : dumpState :=
  mkState wr 0 ∅ false false c [].

Definition ptrToInt : rtype := unnamedType "*int".

(** A heap with an [int] 1 at every address but 48, which holds a pointer
    to address 16. *)
Definition demoHeap : Heap :=
  fun a => if a =? 48 then VPtr ptrToInt (Some 16) else intValue 1.

(** [S{p: &x, s: T{a: &x, b: &x}}] with [x] at address 16: three pointers to
    one [int], none of them on the path to another. *)
Definition sharedInt : Value :=
  VStruct (namedType "main" "S")
    [ (mkField "p" "main", VPtr ptrToInt (Some 16));
      (mkField "s" "main",
       VStruct (namedType "main" "T")
         [ (mkField "a" "main", VPtr ptrToInt (Some 16));
           (mkField "b" "main", VPtr ptrToInt (Some 16)) ]) ].

(** [type P *P; var p P; p = &p]: the variable [p], at address 1, holds its
    own address. *)
Definition selfPtr : Value := VPtr (namedType "main" "P") (Some 1).
Definition selfPtrHeap : Heap := fun _ => selfPtr.

(** [var i interface{}; p := &i; i = p]: the interface at address 1 holds
    the pointer to itself. *)
Definition ifacePtr : Value := VPtr (unnamedType "*interface {}") (Some 1).
Definition ifacePtrHeap : Heap :=
  fun _ => VInterface (unnamedType "interface {}") (Some ifacePtr).

(** ** The claims that the code does not meet, as stated *)

(** "An address is removed the moment the traversal backtracks to or above
    the depth at which it was recorded": when the dump of a value started at
    some depth has returned, nothing recorded at that depth or deeper is
    left in the table. *)
Definition removedOnBacktrack (env : Common) (h : Heap) : Prop :=
  forall fuel v wasPtr static d d',
    dump env h fuel v wasPtr static d = Ok d' ->
    forall a pd, pointers d' !! a = Some pd -> pd < depth d.

(** [follow h k v]: the value reached from [v] by following [k] pointers,
    stepping through a non-nil interface a pointer points at. *)
Fixpoint follow (h : Heap) (k : nat) (v : Value) : option Value :=
  match k with
  | O => Some v
  | S k' =>
      match v with
      | VPtr _ (Some a) =>
          match h a with
          | VInterface _ (Some e) => follow h k' e
          | e => follow h k' e
          end
      | _ => None
      end
  end.













Definition pointerKeyMap (kvs : list (Value * Value)) : Value :=
  VMap (unnamedType "map[*int]string") (Some kvs).



(** ** Well-formed values *)

(** What reflect guarantees of the values it hands out: a type has a name
    that is not empty, what an interface holds or a container contains is a
    valid value, and the elements of a slice or an array are all of the kind
    of the first. *)
Definition wfType (t : rtype) : bool := negb (String.eqb (tString t) "").

Definition sameKinds (es : list Value) : bool :=
  match es with
  | [] => true
  | e0 :: _ => forallb (fun e => bool_decide (Kind e = Kind e0)) es
  end.

Fixpoint wfValue (v : Value) : bool :=
  match v with
  | VInvalid => false
  | VBool t _ | VInt t _ _ | VUint t _ _ | VUintptr t _ | VFloat t _ _
  | VComplex t _ _ _ | VString t _ | VPtr t _ | VHandle t _ _
  | VOther t _ => wfType t
  | VInterface t None | VSlice t None | VMap t None => wfType t
  | VInterface t (Some e) => wfType t && wfValue e
  | VSlice t (Some es) | VArray t es =>
      wfType t && forallb wfValue es && sameKinds es
  | VMap t (Some kvs) =>
      wfType t
      && forallb (fun kv => wfValue (fst kv) && wfValue (snd kv)) kvs
  | VStruct t fs => wfType t && forallb (fun f => wfValue (snd f)) fs
  end.

Definition wfHeap (h : Heap) : Prop := forall a, wfValue (h a) = true.

(** A value dump can be handed: a well-formed one, or the zero Value that
    MapIndex returns for a key it does not find. *)
Definition dumpable (v : Value) : Prop := wfValue v = true \/ v = VInvalid.

(** An action that does not panic when it starts at a depth that is not
    negative. *)
Definition safe (a : action) : Prop :=
  forall d, 0 <= depth d -> forall msg, a d <> Panic msg.

(** ** Notions for the further properties *)

(** The state [d] after the byte strings [out] have been written, and
    nothing else has changed. *)
Definition appendW (out : list string) (d : dumpState) : dumpState :=
  mkState (w d ++ out) (depth d) (pointers d) (ignoreNextType d)
          (ignoreNextIndent d) (cs d) (nodes d).

(** The type name as dumpPtr writes it: between parentheses when its first
    byte is a star. *)
Definition typeChunks (t : rtype) (star : bool) : list string :=
  if star
  then [openParenBytes;
        bytesReplace (tString t) interfaceTypeBytes interfaceBytes;
        closeParenBytes]
  else [bytesReplace (tString t) interfaceTypeBytes interfaceBytes].

(** The comment dumpPtr writes for a chain of one address, when
    CommentPointers is set. *)
Definition pointerComment (env : Common) (c : ConfigState) (a : Z)
    : list string :=
  if CommentPointers c
  then [openCommentBytes env] ++ printHexPtr env a true
       ++ [closeCommentBytes env]
  else [].

(** The type name as dump writes it. *)
Definition typeName (t : rtype) : string :=
  bytesReplace (tString t) interfaceTypeBytes interfaceBytes.

(** States for the examples: at depth 1 with address 16 recorded at depth
    0, and a fresh one at depth 0. *)
Definition insideState : dumpState :=
  mkState [] 1 {[ 16 := 0 ]} false false defaultConfig [].

(** Whether a struct field is exported: [vtf.PkgPath == ""]. *)
Definition exportedField (f : StructField * Value) : bool :=
  String.eqb (PkgPath (fst f)) "".

Definition exportedFields (fs : list (StructField * Value))
    : list (StructField * Value) := List.filter exportedField fs.

(** The configuration of the examples with IgnoreUnexported set, and a
    struct with an exported and an unexported field. *)
Definition exportedConfig : ConfigState :=
  mkConfig " " false true false 16 true false.

Definition mixedFields : list (StructField * Value) :=
  [ (mkField "A" "", intValue 1);
    (mkField "b" "main", VPtr ptrToInt (Some 16)) ].

(** [d'] has the writer and the two flags of [d], and the nodes of [d]
    followed by new ones. *)
Definition onlyNodesAdded (d d' : dumpState) : Prop :=
  w d' = w d /\ ignoreNextType d' = ignoreNextType d
  /\ ignoreNextIndent d' = ignoreNextIndent d
  /\ exists l, nodes d' = nodes d ++ l.

(** An action that writes nothing, leaves the flags and only adds nodes. *)
Definition quiet (a : action) : Prop :=
  forall d d', a d = Ok d' -> onlyNodesAdded d d'.

(** The state [d] with [p] in front of what its writer holds. *)
Definition prependW (p : list string) (d : dumpState) : dumpState :=
  mkState (p ++ w d) (depth d) (pointers d) (ignoreNextType d)
          (ignoreNextIndent d) (cs d) (nodes d).

Definition outcomeMap {A B : Type} (f : A -> B) (o : outcome A) : outcome B :=
  match o with
  | Ok a => Ok (f a)
  | Panic msg => Panic msg
  | OutOfFuel => OutOfFuel
  end.

(** An action that does the same whatever the writer holds already. *)
Definition uniform (a : action) : Prop :=
  forall p d, a (prependW p d) = outcomeMap (prependW p) (a d).

(** What can be reached from [v], through pointers, interfaces and
    containers, unfolds to a tree of fewer than [n] levels: no pointer
    leads back to something it was reached from. *)
Fixpoint unfoldsWithin (h : Heap) (n : nat) (v : Value) {struct n} : bool :=
  match n with
  | O => false
  | S n' =>
      match v with
      | VPtr _ (Some a) => unfoldsWithin h n' (h a)
      | VInterface _ (Some e) => unfoldsWithin h n' e
      | VSlice _ (Some es) | VArray _ es => forallb (unfoldsWithin h n') es
      | VMap _ (Some kvs) =>
          forallb (fun kv => unfoldsWithin h n' (fst kv)
                             && unfoldsWithin h n' (snd kv)) kvs
      | VStruct _ fs => forallb (fun f => unfoldsWithin h n' (snd f)) fs
      | _ => true
      end
  end.

Arguments unfoldsWithin : simpl never.

(** An action the fuel suffices for. *)
Definition halts (a : action) : Prop := forall d, a d <> OutOfFuel.

(** An action that returns, from every state. *)
Definition returns (a : action) : Prop := forall d, exists d', a d = Ok d'.

(** [a], started in a state where [P] holds, returns only in states where
    [Q] holds. *)
Definition hoare (P : dumpState -> Prop) (a : action) (Q : dumpState -> Prop)
    : Prop :=
  forall d d', a d = Ok d' -> P d -> Q d'.

(** The type of the next value is not suppressed. *)
Definition typeShown (d : dumpState) : Prop := ignoreNextType d = false.

(** Nothing is suppressed for the next value. *)
Definition flagsClear (d : dumpState) : Prop :=
  ignoreNextType d = false /\ ignoreNextIndent d = false.

(** The state dumpPtr hands to dump: the type has been written. *)
Definition typeWritten (d : dumpState) : Prop :=
  ignoreNextType d = true /\ ignoreNextIndent d = false.

(** An action that leaves the two flags as they are. *)
Definition flagsKept (a : action) : Prop :=
  forall d d', a d = Ok d' ->
    ignoreNextType d' = ignoreNextType d
    /\ ignoreNextIndent d' = ignoreNextIndent d.

(** The state in which dump is handed the value of a map key or of a struct
    field: the indentation is suppressed. *)
Definition afterKeyState : dumpState :=
  mkState [] 1 ∅ false true defaultConfig [].


(** The fields of a struct whose fields are all signed integers of type
    [ti], from their names and values. *)
Definition intFields (ti : rtype) (k : intKind) (fs : list (StructField * Z))
    : list (StructField * Value) :=
  map (fun f => (fst f, VInt ti k (snd f))) fs.

(** The line of such a field in a dump: indentation, name, colon, and the
    value with its type; then a comma. *)
Definition fieldLine (env : Common) (ind : string) (ti : rtype)
    (f : StructField * Z) : list string :=
  [ind; Name (fst f); colonSpaceBytes; typeName ti; openParenBytes]
  ++ printInt env (snd f) 10 ++ [closeParenBytes; commaNewlineBytes].

Definition twoIntFields : list (StructField * Z) :=
  [ (mkField "A" "", 1); (mkField "b" "main", 2) ].

(** ** The chain of a pointer, as the spec reads it *)

(** How a chain ends: at a value that is not a pointer, at a nil pointer or
    at a nil interface that a pointer leads to, or at a pointer to an
    address that the table holds at a smaller depth. *)
Inductive chainEnd : Set := atValue | atNil | atCycle.

(** The reference chain as the spec walks it, with which dumpPtr is
    compared: "while the current value is reference-shaped, if nil, stop;
    else, if its identity is already in the table with a recorded depth
    strictly less than the current depth, stop; else record, then
    dereference; if the dereferenced value is itself a union-wrapper,
    transparently unwrap one level".
    [chainLevels h d v addrs vf e]: starting at [v], the pointers at the
    addresses [addrs] are followed in this order, one indirection level
    each; each of them is not nil and its address is not in the table of
    [d] at a smaller depth, and a non-nil interface that a pointer leads to
    is stepped through.  The chain ends at [vf] in the way [e] says; the
    code also stops, as at nil, at a nil interface that a pointer leads
    to. *)
Inductive chainLevels (h : Heap) (d : dumpState)
    : Value -> list Z -> Value -> chainEnd -> Prop :=
| levels_value v :
    Kind v <> reflect.Ptr -> chainLevels h d v [] v atValue
| levels_nil t :
    chainLevels h d (VPtr t None) [] (VPtr t None) atNil
| levels_cycle t a :
    cycleAt d a = true ->
    chainLevels h d (VPtr t (Some a)) [] (VPtr t (Some a)) atCycle
| levels_nil_interface t a ti :
    cycleAt d a = false -> h a = VInterface ti None ->
    chainLevels h d (VPtr t (Some a)) [a] (VInterface ti None) atNil
| levels_interface t a ti x addrs vf e :
    cycleAt d a = false -> h a = VInterface ti (Some x) ->
    chainLevels h d x addrs vf e ->
    chainLevels h d (VPtr t (Some a)) (a :: addrs) vf e
| levels_pointer t a addrs vf e :
    cycleAt d a = false -> Kind (h a) <> reflect.Interface ->
    chainLevels h d (h a) addrs vf e ->
    chainLevels h d (VPtr t (Some a)) (a :: addrs) vf e.


(** The table after the addresses [addrs] have been recorded at the current
    depth, one after the other. *)
Definition recordAll (addrs : list Z) (d : dumpState) : dumpState :=
  fold_left (fun d a => recordPointer a d) addrs d.





(** * Properties *)

(** ** The state monad *)

Lemma frame_refl n d : frame n d d.
Proof. intros a pd _. reflexivity. Qed.

Lemma frame_trans n d1 d2 d3 : frame n d1 d2 -> frame n d2 d3 -> frame n d1 d3.
Proof. intros H1 H2 a pd Hpd. rewrite (H2 a pd Hpd). apply H1, Hpd. Qed.

Lemma frame_pointers n d d' : pointers d' = pointers d -> frame n d d'.
Proof. intros E a pd _. rewrite E. reflexivity. Qed.

Lemma andThen_Ok (a b : action) d d' :
  (a ;; b) d = Ok d' <-> exists d1, a d = Ok d1 /\ b d1 = Ok d'.
Proof.
  unfold andThen. destruct (a d) as [d1| |]; split.
  - intros H. exists d1. auto.
  - intros (d2 & E & H). congruence.
  - discriminate.
  - intros (d2 & E & H). discriminate.
  - discriminate.
  - intros (d2 & E & H). discriminate.
Qed.

Section Keeps.
Variable n : Z.

Lemma keeps_quiet (a : action) :
  (forall d d', a d = Ok d' ->
     depth d' = depth d /\ cs d' = cs d /\ (exists out, w d' = w d ++ out)
     /\ pointers d' = pointers d) ->
  keeps n a.
Proof.
  intros H d d' E. destruct (H d d' E) as (? & ? & ? & ?).
  split_and!; auto. intros _. by apply frame_pointers.
Qed.

Lemma keeps_skip : keeps n skip.
Proof.
  apply keeps_quiet. intros d d' [= <-]. split_and!; auto.
  exists []. by rewrite app_nil_r.
Qed.

Lemma keeps_panic msg : keeps n (panic msg).
Proof. intros d d' E. discriminate. Qed.

Lemma keeps_write b : keeps n (write b).
Proof.
  apply keeps_quiet. intros d d' [= <-]. simpl. split_and!; auto. by eexists.
Qed.

Lemma keeps_setIgnoreNextType b : keeps n (setIgnoreNextType b).
Proof.
  apply keeps_quiet. intros d d' [= <-]. simpl. split_and!; auto.
  exists []. by rewrite app_nil_r.
Qed.

Lemma keeps_setIgnoreNextIndent b : keeps n (setIgnoreNextIndent b).
Proof.
  apply keeps_quiet. intros d d' [= <-]. simpl. split_and!; auto.
  exists []. by rewrite app_nil_r.
Qed.

Lemma keeps_seq a b : keeps n a -> keeps n b -> keeps n (a ;; b).
Proof.
  intros Ha Hb d d' E. apply andThen_Ok in E as (d1 & E1 & E2).
  destruct (Ha _ _ E1) as (D1 & C1 & (o1 & W1) & F1).
  destruct (Hb _ _ E2) as (D2 & C2 & (o2 & W2) & F2).
  split_and!; try congruence.
  - exists (o1 ++ o2). rewrite W2, W1. by rewrite <- app_assoc.
  - intros Hn. eapply frame_trans; [apply F1, Hn|]. apply F2. lia.
Qed.

Lemma keeps_withState f : (forall d0, keeps n (f d0)) -> keeps n (withState f).
Proof. intros H d d' E. exact (H d d d' E). Qed.

Lemma keeps_writeAll bs : keeps n (writeAll bs).
Proof.
  induction bs; simpl; [apply keeps_skip|].
  apply keeps_seq; [apply keeps_write | assumption].
Qed.

Lemma keeps_forEach {A} (body : A -> action) l :
  (forall x, keeps n (body x)) -> keeps n (forEach body l).
Proof.
  intros H. induction l; simpl; [apply keeps_skip|].
  apply keeps_seq; auto.
Qed.

Lemma keeps_bracket body rest :
  keeps n body -> keeps n rest ->
  keeps n (incDepth ;; body ;; decDepth ;; rest).
Proof.
  intros Hb Hr d d' E.
  apply andThen_Ok in E as (d1 & E1 & E).
  apply andThen_Ok in E as (d2 & E2 & E).
  apply andThen_Ok in E as (d3 & E3 & E4).
  injection E1 as <-. injection E3 as <-.
  destruct (Hb _ _ E2) as (D2 & C2 & (o2 & W2) & F2).
  destruct (Hr _ _ E4) as (D4 & C4 & (o4 & W4) & F4).
  simpl in *.
  split_and!; try congruence; try lia.
  - exists (o2 ++ o4). rewrite W4, W2. by rewrite <- app_assoc.
  - intros Hn a pd Hpd.
    rewrite (F4 ltac:(lia) a pd Hpd). simpl.
    rewrite (F2 ltac:(lia) a pd Hpd). reflexivity.
Qed.

Lemma keeps_bracket0 body :
  keeps n body -> keeps n (incDepth ;; body ;; decDepth).
Proof.
  intros Hb d d' E.
  assert (E' : (incDepth ;; body ;; decDepth ;; skip) d = Ok d').
  { apply andThen_Ok in E as (d1 & E1 & E).
    apply andThen_Ok in E as (d2 & E2 & E3).
    apply andThen_Ok. exists d1. split; [done|].
    apply andThen_Ok. exists d2. split; [done|].
    apply andThen_Ok. exists d'. split; [done|]. reflexivity. }
  revert E'. apply keeps_bracket; [assumption | apply keeps_skip].
Qed.

End Keeps.

Lemma purge_lookup d a pd :
  pointers (purgePointers d) !! a = Some pd <->
  pointers d !! a = Some pd /\ pd < depth d.
Proof.
  unfold purgePointers, setPointers. simpl.
  rewrite map_lookup_filter_Some. simpl. reflexivity.
Qed.

Lemma purge_frame n d : n <= depth d -> frame n d (purgePointers d).
Proof.
  intros Hn a pd Hpd. rewrite purge_lookup. split; [tauto|]. intros H. split; [done|lia].
Qed.

Lemma record_frame n addr d :
  cycleAt d addr = false -> n <= depth d -> frame n d (recordPointer addr d).
Proof.
  intros Hc Hn a pd Hpd. unfold recordPointer, setPointers. simpl.
  unfold cycleAt in Hc.
  destruct (decide (addr = a)) as [->|Hne].
  - rewrite lookup_insert_eq. split.
    + intros [= <-]. lia.
    + intros E. rewrite E in Hc. apply Z.ltb_ge in Hc. lia.
  - by rewrite lookup_insert_ne.
Qed.

Lemma dumpPtrLoop_keeps n h fuel :
  forall ve i ch d c d',
    dumpPtrLoop h fuel ve i ch d = Ok (c, d') ->
    depth d' = depth d /\ cs d' = cs d /\ w d' = w d
    /\ ignoreNextType d' = ignoreNextType d
    /\ ignoreNextIndent d' = ignoreNextIndent d
    /\ (n <= depth d -> frame n d d').
Proof.
  induction fuel as [|fuel IH]; intros ve i ch d c d' E; simpl in E.
  - destruct (bool_decide (Kind ve = reflect.Ptr)); [destruct (IsNil ve)|];
      try discriminate; injection E as <- <-; split_and!; auto using frame_refl.
  - destruct (bool_decide (Kind ve = reflect.Ptr));
      [destruct (IsNil ve)|];
      try (injection E as <- <-; split_and!; auto using frame_refl; fail).
    destruct (cycleAt d (Pointer ve)) eqn:Hc;
      try (injection E as <- <-; split_and!; auto using frame_refl; fail).
    assert (Hrec : forall ve' i' ch',
      dumpPtrLoop h fuel ve' i' ch' (recordPointer (Pointer ve) d) = Ok (c, d') ->
      depth d' = depth d /\ cs d' = cs d /\ w d' = w d
      /\ ignoreNextType d' = ignoreNextType d
      /\ ignoreNextIndent d' = ignoreNextIndent d
      /\ (n <= depth d -> frame n d d')).
    { intros ve' i' ch' E'. apply IH in E' as (D & C & W & T & I & F).
      simpl in *. split_and!; auto.
      intros Hn. eapply frame_trans; [by apply record_frame|]. by apply F. }
    destruct (bool_decide (Kind (Elem h ve) = reflect.Interface)).
    + destruct (IsNil (Elem h ve)).
      * injection E as <- <-. simpl. split_and!; auto.
        intros Hn. by apply record_frame.
      * eapply Hrec, E.
    + eapply Hrec, E.
Qed.

Ltac keeps_step :=
  match goal with
  | |- keeps _ skip => apply keeps_skip
  | |- keeps _ (panic _) => apply keeps_panic
  | |- keeps _ (write _) => apply keeps_write
  | |- keeps _ (writeAll _) => apply keeps_writeAll
  | |- keeps _ (setIgnoreNextType _) => apply keeps_setIgnoreNextType
  | |- keeps _ (setIgnoreNextIndent _) => apply keeps_setIgnoreNextIndent
  | |- keeps _ (incDepth ;; _ ;; decDepth ;; _) => apply keeps_bracket
  | |- keeps _ (incDepth ;; _ ;; decDepth) => apply keeps_bracket0
  | |- keeps _ (_ ;; _) => apply keeps_seq
  | |- keeps _ (withState _) => apply keeps_withState; intros ?
  | |- keeps _ (forEach _ _) => apply keeps_forEach; intros ?
  | H : forall v wp st, keeps _ (?f v wp st) |- keeps _ (?f _ _ _) => apply H
  | H : forall v wp st a, keeps _ (?f v wp st a) |- keeps _ (?f _ _ _ _) =>
      apply H
  | |- keeps _ (if ?b then _ else _) => destruct b
  | |- keeps _ (match ?x with _ => _ end) => destruct x
  | |- keeps _ _ => assumption
  end.

Section KeepsDump.
Variable n : Z.
Variable env : Common.
Variable h : Heap.

Lemma keeps_indent : keeps n indent.
Proof. unfold indent. repeat keeps_step. Qed.

Lemma keeps_dumpPtr dump fuel v :
  (forall v wp st, keeps n (dump v wp st)) ->
  keeps n (dumpPtr env h dump fuel v).
Proof.
  intros Hd d d' E. unfold dumpPtr in E.
  destruct (dumpPtrLoop h fuel v 0 [] (purgePointers d)) as [[c d1]| |] eqn:EL;
    try discriminate.
  apply (dumpPtrLoop_keeps n) in EL as (D & C & W & _ & _ & F).
  assert (K : keeps n
    (writePtrType c;; writePtrComment env c;;
     (if nilFound c
      then write openParenBytes;; write nilBytes;; write closeParenBytes
      else if cycleFound c then write (circularBytes env)
           else setIgnoreNextType true;; dump (ve c) true false))).
  { unfold writePtrType, writePtrComment.
    repeat keeps_step.
    all: try (generalize 0%nat; induction (pointerChain c); intros; simpl; repeat keeps_step; auto). }
  destruct (K _ _ E) as (D' & C' & (o & W') & F').
  simpl in *. split_and!; try congruence.
  - exists o. congruence.
  - intros Hn. eapply frame_trans; [|apply F'; lia].
    eapply frame_trans; [apply purge_frame, Hn|]. apply F. simpl. lia.
Qed.

Lemma keeps_dumpSlice dump v :
  (forall v wp st, keeps n (dump v wp st)) ->
  keeps n (dumpSlice env h dump v).
Proof.
  intros Hd. unfold dumpSlice.
  destruct (hexBuffer env v) as [[buf|]| |]; repeat keeps_step.
  intros d d' E. discriminate.
Qed.

Lemma keeps_dumpKind dump v wantType :
  (forall v wp st, keeps n (dump v wp st)) ->
  keeps n (dumpKind env h dump v wantType).
Proof.
  intros Hd. pose proof keeps_indent. pose proof (keeps_dumpSlice dump).
  destruct v; simpl; repeat keeps_step; auto.
Qed.

Lemma keeps_dump fuel : forall v wp st, keeps n (dump env h fuel v wp st).
Proof.
  induction fuel as [|fuel IH]; intros v wp st; simpl.
  - intros d d' E. discriminate.
  - pose proof keeps_indent.
    pose proof (keeps_dumpPtr (dump env h fuel) fuel v IH).
    pose proof (fun w => keeps_dumpKind (dump env h fuel) v w IH).
    repeat keeps_step; auto.
Qed.

End KeepsDump.

(** ** What walk keeps *)

Lemma walkPtrLoop_keeps n h fuel :
  forall ve d ve' nf cf d',
    walkPtrLoop h fuel ve d = Ok (ve', nf, cf, d') ->
    depth d' = depth d /\ cs d' = cs d /\ w d' = w d
    /\ (n <= depth d -> frame n d d').
Proof.
  induction fuel as [|fuel IH]; intros ve d ve' nf cf d' E; simpl in E.
  - destruct (bool_decide (Kind ve = reflect.Ptr)); [destruct (IsNil ve)|];
      try discriminate; injection E as <- <- <- <-;
      split_and!; auto using frame_refl.
  - destruct (bool_decide (Kind ve = reflect.Ptr));
      [destruct (IsNil ve)|];
      try (injection E as <- <- <- <-; split_and!; auto using frame_refl; fail).
    destruct (cycleAt d (Pointer ve)) eqn:Hc;
      try (injection E as <- <- <- <-; split_and!; auto using frame_refl; fail).
    destruct (Type_ ve) as [t|]; [|discriminate].
    set (d1 := addNode (Pointer ve, t) (recordPointer (Pointer ve) d)) in *.
    assert (F1 : n <= depth d -> frame n d d1).
    { intros Hn. eapply frame_trans; [by apply record_frame|].
      by apply frame_pointers. }
    destruct (bool_decide (Kind (Elem h ve) = reflect.Interface)
              && IsNil (Elem h ve)).
    { injection E as <- <- <- <-. split_and!; auto. }
    destruct (Type_ _) as [t'|]; [|discriminate].
    apply IH in E as (D & C & W & F). simpl in *.
    split_and!; auto.
    intros Hn. eapply frame_trans; [by apply F1|].
    eapply frame_trans; [|by apply F]. by apply frame_pointers.
Qed.

Section KeepsWalk.
Variable n : Z.
Variable h : Heap.

Lemma keeps_walkPtr walk fuel v :
  (forall v wp st a, keeps n (walk v wp st a)) ->
  keeps n (walkPtr h walk fuel v).
Proof.
  intros Hw d d' E. unfold walkPtr in E.
  destruct (walkPtrLoop h fuel v (purgePointers d))
    as [[[[ve' nf] cf] d1]| |] eqn:EL; try discriminate.
  apply (walkPtrLoop_keeps n) in EL as (D & C & W & F). simpl in *.
  assert (F1 : n <= depth d -> frame n d d1).
  { intros Hn. eapply frame_trans; [apply purge_frame, Hn|]. by apply F. }
  destruct (negb nf && negb cf).
  - destruct (Hw _ _ _ _ _ _ E) as (D' & C' & (o & W') & F').
    split_and!; try congruence.
    + exists o. congruence.
    + intros Hn. eapply frame_trans; [by apply F1|]. apply F'. lia.
  - injection E as <-. split_and!; auto.
    exists []. by rewrite app_nil_r.
Qed.

Lemma keeps_walkUnpacked walk x :
  (forall v wp st a, keeps n (walk v wp st a)) ->
  keeps n (walkUnpacked h walk x).
Proof.
  intros Hw. unfold walkUnpacked.
  destruct (unpackValue h x) as [[x' wp] st]. apply Hw.
Qed.

Lemma keeps_walk fuel : forall v wp st a, keeps n (walk h fuel v wp st a).
Proof.
  induction fuel as [|fuel IH]; intros v wp st a; simpl.
  - intros d d' E. discriminate.
  - pose proof (keeps_walkPtr (walk h fuel) fuel v IH).
    pose proof (fun x => keeps_walkUnpacked (walk h fuel) x IH).
    unfold walkSlice.
    repeat keeps_step; auto.
Qed.

End KeepsWalk.

(** ** Depth *)

(** C10. A call of dump that returns leaves [depth] as it found it, and so
    does a call of walk; the state of a top-level fdump ends at depth 0. *)
Theorem depth_restored env h fuel v wasPtr static addr d d' :
  (dump env h fuel v wasPtr static d = Ok d' -> depth d' = depth d)
  /\ (walk h fuel v wasPtr static addr d = Ok d' -> depth d' = depth d)
  /\ (forall c wr out dEnd,
        fdump env h fuel c wr (Some v) = Ok (out, Some dEnd) ->
        depth dEnd = 0).
Proof.
  split_and!.
  - intros E. by destruct (keeps_dump 0 env h fuel v wasPtr static d d' E).
  - intros E. by destruct (keeps_walk 0 h fuel v wasPtr static addr d d' E).
  - intros c wr out dEnd E. unfold fdump in E.
    destruct ((dump env h fuel v false false;; write newlineBytes)
                (mkState wr 0 ∅ false false c [])) as [d1| |] eqn:E1;
      try discriminate.
    injection E as _ <-.
    apply andThen_Ok in E1 as (d2 & E2 & [= <-]). simpl.
    by destruct (keeps_dump 0 env h fuel v false false _ _ E2).
Qed.

Lemma depth_restored_witness :
  exists d',
    dump plainCommon demoHeap 9 sharedInt false false
         (startState defaultConfig []) = Ok d'
    /\ depth d' = depth (startState defaultConfig []).
Proof.
  eexists. split.
  - vm_compute. reflexivity.
  - apply (proj1 (depth_restored plainCommon demoHeap 9 sharedInt false false 0
                                 (startState defaultConfig []) _)).
    vm_compute. reflexivity.
Defined.

(** ** The nil interface *)

(** C9. fdump of a nil interface writes "interface{}", "(", "nil", ")" and a
    line break, whatever the fuel and the heap, and makes no [dumpState], so
    that there is no pointer table to read or to fill; Fdump, Sdump and Dump
    write the same text. *)
Theorem fdump_nil env h fuel c wr :
  fdump env h fuel c wr None
  = Ok (wr ++ ["interface{}"; "("; "nil"; ")"; newline], None)
  /\ Fdump env h c fuel wr None
     = Ok (wr ++ ["interface{}"; "("; "nil"; ")"; newline])
  /\ Dump env h c fuel wr None
     = Ok (wr ++ ["interface{}"; "("; "nil"; ")"; newline])
  /\ Sdump env h c fuel None = Ok ("interface{}(nil)" ++ newline)%string.
Proof. split_and!; reflexivity. Qed.

(** ** The pointer table *)

Lemma purge_purge d : purgePointers (purgePointers d) = purgePointers d.
Proof.
  unfold purgePointers at 1. unfold setPointers.
  destruct d as [w0 n m t i c ns]. unfold purgePointers, setPointers. simpl.
  f_equal. apply map_eq. intros a.
  apply option_eq. intros pd.
  rewrite !map_lookup_filter_Some. simpl. tauto.
Qed.

(** C4, the claim as stated, fails: after the dump of a pointer to an [int]
    at depth 0 has returned, its address is still in the table, recorded at
    depth 0. *)
Lemma removedOnBacktrack_fails : ~ removedOnBacktrack plainCommon demoHeap.
Proof.
  intros H.
  destruct (dump plainCommon demoHeap 3 (VPtr ptrToInt (Some 16)) false false
                 (startState defaultConfig [])) as [d'| |] eqn:E;
    [|vm_compute in E; discriminate..].
  pose proof (H _ _ _ _ _ _ E 16 0) as H1.
  vm_compute in E. injection E as <-.
  assert (H2 : 0 < 0) by (apply H1; vm_compute; reflexivity).
  lia.
Qed.

(** C4, amended.  dumpPtr and walkPtr start by removing the entries recorded
    at the current depth or deeper, and what they do next sees only the
    entries that are left; so an address is removed at the next pointer
    visited at or above the depth it was recorded at.  And while a value is
    dumped or walked, the entries recorded below the depth it started at are
    neither removed, nor changed, nor added to. *)
Theorem tracker_purged_on_entry env h fuel v wasPtr static addr d d' :
  (forall a pd,
     pointers (purgePointers d) !! a = Some pd
     <-> pointers d !! a = Some pd /\ pd < depth d)
  /\ (forall f, dumpPtr env h f fuel v d = dumpPtr env h f fuel v (purgePointers d))
  /\ (forall f, walkPtr h f fuel v d = walkPtr h f fuel v (purgePointers d))
  /\ (dump env h fuel v wasPtr static d = Ok d'
      \/ walk h fuel v wasPtr static addr d = Ok d' ->
      forall a pd, pd < depth d ->
        (pointers d' !! a = Some pd <-> pointers d !! a = Some pd)).
Proof.
  split_and!.
  - intros a pd. apply purge_lookup.
  - intros f. unfold dumpPtr. by rewrite purge_purge.
  - intros f. unfold walkPtr. by rewrite purge_purge.
  - intros [E|E] a pd Hpd.
    + destruct (keeps_dump (depth d) env h fuel v wasPtr static d d' E)
        as (_ & _ & _ & F).
      apply F; [lia | done].
    + destruct (keeps_walk (depth d) h fuel v wasPtr static addr d d' E)
        as (_ & _ & _ & F).
      apply F; [lia | done].
Qed.

Lemma tracker_purged_on_entry_witness :
  exists d',
    dump plainCommon demoHeap 9 sharedInt false false
         (mkState [] 1 {[ 7 := 0 ]} false false defaultConfig []) = Ok d'
    /\ (pointers d' !! 7 = Some 0
        <-> pointers (mkState [] 1 {[ 7 := 0 ]} false false defaultConfig [])
              !! 7 = Some 0).
Proof.
  eexists. split.
  - vm_compute. reflexivity.
  - apply (proj2 (proj2 (proj2
      (tracker_purged_on_entry plainCommon demoHeap 9 sharedInt false false 0
         (mkState [] 1 {[ 7 := 0 ]} false false defaultConfig []) _)))).
    + left. vm_compute. reflexivity.
    + simpl. lia.
Defined.

(** ** Pointer chains that come back to themselves *)

Lemma cycleAt_recorded addr d : cycleAt (recordPointer addr d) addr = false.
Proof.
  unfold cycleAt, recordPointer, setPointers. simpl.
  rewrite lookup_insert_eq. apply Z.ltb_irrefl.
Qed.

Lemma selfPtr_loop fuel :
  forall i ch d,
    cycleAt d 1 = false ->
    dumpPtrLoop selfPtrHeap fuel selfPtr i ch d = OutOfFuel.
Proof.
  induction fuel as [|fuel IH]; intros i ch d Hc; simpl; [reflexivity|].
  rewrite Hc. apply IH, cycleAt_recorded.
Qed.

Lemma ifacePtr_loop fuel :
  forall i ch d,
    cycleAt d 1 = false ->
    dumpPtrLoop ifacePtrHeap fuel ifacePtr i ch d = OutOfFuel.
Proof.
  induction fuel as [|fuel IH]; intros i ch d Hc; simpl; [reflexivity|].
  rewrite Hc. apply IH, cycleAt_recorded.
Qed.

(** C1, at the failing input.  For [type P *P; var p P; p = &p] the dump of
    [p] does not return, whatever the fuel: the loop of dumpPtr records the
    address of [p] at the current depth and meets it again at that same
    depth, which [pd < d.depth] does not take for a cycle. *)
Theorem self_pointer_never_returns env fuel c wr :
  fdump env selfPtrHeap fuel c wr (Some selfPtr) = OutOfFuel.
Proof.
  unfold fdump. destruct fuel as [|fuel]; [reflexivity|].
  unfold andThen. simpl. unfold andThen, indent, withState. simpl.
  unfold dumpPtr. rewrite selfPtr_loop; reflexivity.
Qed.

(** C3, at the failing input.  For [var i interface{}; p := &i; i = p] the
    chain of [p] comes back to the address of [i], which is recorded and on
    the current path; no marker is written, and the dump does not return. *)
Theorem interface_cycle_never_marked env fuel c wr :
  fdump env ifacePtrHeap fuel c wr (Some ifacePtr) = OutOfFuel
  /\ forall i ch,
       dumpPtrLoop ifacePtrHeap fuel ifacePtr i ch
                   (purgePointers (startState c wr)) = OutOfFuel.
Proof.
  split.
  - unfold fdump. destruct fuel as [|fuel]; [reflexivity|].
    unfold andThen. simpl. unfold andThen, indent, withState. simpl.
    unfold dumpPtr. rewrite ifacePtr_loop; reflexivity.
  - intros i ch. apply ifacePtr_loop. reflexivity.
Qed.

(** C2, at the failing input.  In [S{p: &x, s: T{a: &x, b: &x}}] the
    sibling fields [a] and [b] point at the same [int] and no pointer is on
    the path to another, yet both are rendered as circular: the address was
    recorded at depth 1 for [p] and is still in the table when [a] and [b]
    are reached at depth 2. *)
Theorem shared_pointer_flagged :
  Sdump plainCommon demoHeap defaultConfig 9 (Some sharedInt)
  = Ok (String.concat newline
          [ "main.S{";
            " p: &int(1),";
            " s: main.T{";
            "  a: (*int)(<already shown>),";
            "  b: (*int)(<already shown>),";
            " },";
            "}";
            "" ]).
Proof. vm_compute. reflexivity. Qed.

(** ** The rendering of a pointer chain *)

Lemma Kind_Ptr v : Kind v = reflect.Ptr -> exists t p, v = VPtr t p.
Proof. destruct v; try destruct k; try discriminate; eauto. Qed.

Lemma Kind_Interface v :
  Kind v = reflect.Interface -> exists t e, v = VInterface t e.
Proof. destruct v; try destruct k; try discriminate; eauto. Qed.

Lemma follow_step h k t a :
  (forall t' e, h a <> VInterface t' (Some e)) ->
  follow h (S k) (VPtr t (Some a)) = follow h k (h a).
Proof.
  intros Hne. simpl. destruct (h a) as [| | | | | | | | |t' [e|]| | | | | |];
    try reflexivity.
  by destruct (Hne t' e).
Qed.

Lemma dumpPtrLoop_follow h fuel :
  forall ve0 i ch d c d',
    dumpPtrLoop h fuel ve0 i ch d = Ok (c, d') ->
    exists k : nat,
      indirects c = i + Z.of_nat k
      /\ follow h k ve0 = Some (ve c)
      /\ (nilFound c = false -> cycleFound c = false ->
          Kind (ve c) <> reflect.Ptr).
Proof.
  induction fuel as [|fuel IH]; intros ve0 i ch d c d' E; simpl in E.
  - destruct (bool_decide (Kind ve0 = reflect.Ptr)) eqn:Hk;
      [destruct (IsNil ve0)|]; try discriminate;
      injection E as <- <-; exists 0%nat; simpl;
      split_and!; try done; try lia.
    intros _ _. by apply bool_decide_eq_false in Hk.
  - destruct (bool_decide (Kind ve0 = reflect.Ptr)) eqn:Hk.
    2:{ injection E as <- <-. exists 0%nat. simpl. split_and!; try done; try lia.
        intros _ _. by apply bool_decide_eq_false in Hk. }
    destruct (IsNil ve0) eqn:Hnil.
    { injection E as <- <-. exists 0%nat. simpl. split_and!; try done; lia. }
    destruct (cycleAt d (Pointer ve0)).
    { injection E as <- <-. exists 0%nat. simpl. split_and!; try done; lia. }
    apply bool_decide_eq_true, Kind_Ptr in Hk as (t & [a|] & ->);
      [|discriminate].
    simpl in E.
    destruct (bool_decide (Kind (h a) = reflect.Interface)) eqn:Hi.
    + apply bool_decide_eq_true, Kind_Interface in Hi as (t' & e & Hh).
      rewrite Hh in E. destruct e as [e|]; simpl in E.
      * apply IH in E as (k & Hk & Hf & Hs). exists (S k). simpl.
        rewrite Hh. split_and!; [lia | done | done].
      * injection E as <- <-. exists 1%nat. simpl. rewrite Hh.
        split_and!; done.
    + apply bool_decide_eq_false in Hi.
      apply IH in E as (k & Hk & Hf & Hs). exists (S k).
      rewrite follow_step.
      * split_and!; [lia | done | done].
      * intros t' e Hh. apply Hi. by rewrite Hh.
Qed.

(** ** Type elision *)



(** ** The order of map keys *)


Lemma ascii_compare_eq a b : Ascii.compare a b = Eq <-> a = b.
Proof.
  split; [apply Ascii.compare_eq_iff|]. intros ->. unfold Ascii.compare.
  apply N.compare_refl.
Qed.

Lemma string_compare_refl s : String.compare s s = Eq.
Proof.
  induction s as [|c s IH]; simpl; [done|].
  by rewrite (proj2 (ascii_compare_eq c c) eq_refl).
Qed.








(** ** Sorting does not depend on the order the keys come in *)

Section SortPerm.

Variable P : Value -> Prop.
Hypothesis asym : forall a b, P a -> P b -> valueLess a b = true -> valueLess b a = false.
Hypothesis trans : forall a b c, P a -> P b -> P c ->
  valueLess a b = true -> valueLess b c = true -> valueLess a c = true.
Hypothesis total : forall a b, P a -> P b ->
  a = b \/ valueLess a b = true \/ valueLess b a = true.





End SortPerm.







Lemma sortValues_Permutation l : Permutation (sortValues l) l.
Proof.
  induction l as [|x l IH]; simpl; [done|].
  transitivity (x :: sortValues l); [|by constructor].
  generalize (sortValues l). clear. intros l.
  induction l as [|y l IH]; simpl; [done|].
  destruct (valueLess y x); [|done].
  rewrite IH. apply perm_swap.
Qed.

(** ** Looking a key up *)


(** ** Running equal actions *)

Lemma andThen_ext_r (a b b' : action) d :
  (forall d1, a d = Ok d1 -> b d1 = b' d1) -> (a ;; b) d = (a ;; b') d.
Proof. intros H. unfold andThen. destruct (a d); auto. Qed.

Lemma andThen_ext_l (a a' b : action) d :
  a d = a' d -> (a ;; b) d = (a' ;; b) d.
Proof. intros H. unfold andThen. by rewrite H. Qed.




Ltac keeps_cs E :=
  match type of E with
  | ?a ?d = Ok ?d1 =>
      let K := fresh "K" in
      assert (K : keeps 0 a) by (repeat keeps_step);
      destruct (K _ _ E) as (_ & ? & _); clear K
  end.






(** ** Panics *)

Lemma safe_skip : safe skip.
Proof. intros d _ msg. discriminate. Qed.

Lemma safe_write b : safe (write b).
Proof. intros d _ msg. discriminate. Qed.

Lemma safe_setIgnoreNextType b : safe (setIgnoreNextType b).
Proof. intros d _ msg. discriminate. Qed.

Lemma safe_setIgnoreNextIndent b : safe (setIgnoreNextIndent b).
Proof. intros d _ msg. discriminate. Qed.

Lemma safe_seq a b : keeps 0 a -> safe a -> safe b -> safe (a ;; b).
Proof.
  intros Ka Ha Hb d Hd msg. unfold andThen.
  destruct (a d) as [d1| |] eqn:E; [| |discriminate].
  - destruct (Ka _ _ E) as (D & _). apply Hb. lia.
  - by destruct (Ha d Hd msg0).
Qed.

Lemma safe_withState f :
  (forall d0, 0 <= depth d0 -> safe (f d0)) -> safe (withState f).
Proof. intros H d Hd. by apply (H d Hd d Hd). Qed.

Lemma safe_writeAll bs : safe (writeAll bs).
Proof.
  induction bs; simpl; [apply safe_skip|].
  apply safe_seq; auto using keeps_write, safe_write.
Qed.

Lemma safe_forEach {A} (body : A -> action) l :
  (forall x, x ∈ l -> keeps 0 (body x)) ->
  (forall x, x ∈ l -> safe (body x)) -> safe (forEach body l).
Proof.
  induction l as [|x l IH]; intros Hk Hs; simpl; [apply safe_skip|].
  apply safe_seq.
  - apply Hk. by left.
  - apply Hs. by left.
  - apply IH; intros y Hy; [apply Hk | apply Hs]; by right.
Qed.

Lemma safe_bracket body rest :
  keeps 0 body -> safe body -> safe rest ->
  safe (incDepth ;; body ;; decDepth ;; rest).
Proof.
  intros Kb Hb Hr d Hd msg. unfold andThen at 1. simpl.
  unfold andThen at 1.
  destruct (body _) as [d2| |] eqn:E2; [| |discriminate].
  - destruct (Kb _ _ E2) as (D2 & _). simpl in D2.
    unfold andThen. simpl. apply Hr. simpl. lia.
  - intros [= ->]. eapply Hb; [|exact E2]. simpl. lia.
Qed.

Lemma safe_indent : safe indent.
Proof.
  unfold indent. apply safe_withState. intros d0 Hd0.
  destruct (ignoreNextIndent d0); [apply safe_setIgnoreNextIndent|].
  unfold bytesRepeat. destruct (depth d0 <? 0) eqn:E.
  - apply Z.ltb_lt in E. lia.
  - apply safe_write.
Qed.

(** ** Well-formed values *)

Lemma wfValue_Type v :
  wfValue v = true -> exists t, Type_ v = Some t /\ wfType t = true.
Proof.
  destruct v as [| | | | | | | | |t [e|]|t [es|]| |t [kvs|]| | |]; simpl;
    try discriminate; intros H; eexists; (split; [reflexivity|]);
    repeat (apply andb_prop in H as [H ?]); done.
Qed.

Lemma wfType_firstIsStar t : wfType t = true -> exists star, firstIsStar (tString t) = Some star.
Proof.
  unfold wfType. destruct (tString t); simpl; [discriminate|]. eauto.
Qed.

Lemma Type_None v : Type_ v = None -> Kind v = reflect.Invalid.
Proof. by destruct v. Qed.

Lemma dumpable_unpack h v :
  dumpable v -> dumpable (fst (fst (unpackValue h v))).
Proof.
  intros [Hw| ->]; [|by right].
  unfold unpackValue.
  destruct (bool_decide (Kind v = reflect.Interface)) eqn:Hk; simpl; [|by left].
  apply bool_decide_eq_true, Kind_Interface in Hk as (t & [e|] & ->); simpl.
  - left. simpl in Hw. by apply andb_prop in Hw as [_ ?].
  - by left.
Qed.

Lemma MapIndex_dumpable kvs key :
  forallb (fun kv => wfValue (fst kv) && wfValue (snd kv)) kvs = true ->
  dumpable (MapIndex kvs key).
Proof.
  intros H. unfold MapIndex.
  destruct (find _ kvs) as [kv|] eqn:E; [|by right].
  apply find_some in E as [Hin _].
  rewrite forallb_forall in H. apply H in Hin.
  apply andb_prop in Hin as [_ ?]. by left.
Qed.

Lemma mapOption_is_Some {A B} (f : A -> option B) l :
  (forall x, In x l -> is_Some (f x)) -> is_Some (mapOption f l).
Proof.
  induction l as [|x l IH]; intros H; simpl; [eauto|].
  destruct (H x) as [y ->]; [by left|].
  destruct IH as [ys ->]; [intros; apply H; by right|]. eauto.
Qed.

Lemma convertUint8_is_Some env e :
  ConvertibleToUint8 (Kind e) = true -> is_Some (convertUint8 env e).
Proof. destruct e; try destruct k; simpl; try discriminate; eauto. Qed.

Lemma uint8Of_is_Some e : Kind e = reflect.Uint8 -> is_Some (uint8Of e).
Proof. destruct e; try destruct k; simpl; try discriminate; eauto. Qed.

Lemma hexBuffer_no_panic env v msg :
  forallb wfValue (elems v) = true -> sameKinds (elems v) = true ->
  hexBuffer env v <> Panic msg.
Proof.
  intros Hw Hk. unfold hexBuffer.
  assert (Hvs : (if negb (CanInterface env v) || negb (CanAddr env v)
                 then unsafeReflectValue v else v) = v)
    by (by destruct (_ || _)).
  rewrite Hvs. clear Hvs.
  destruct (elems v) as [|e0 es] eqn:He; [done|].
  assert (Hw0 : wfValue e0 = true) by (simpl in Hw; by apply andb_prop in Hw as [? _]).
  destruct (wfValue_Type _ Hw0) as (vt & -> & _).
  assert (Hconv : convertAll env v e0 <> Panic msg).
  { unfold convertAll. destruct (ConvertibleToUint8 (Kind e0)) eqn:Hc; [|done].
    destruct (mapOption_is_Some (convertUint8 env) (elems v)) as [buf ->]; [|done].
    intros x Hx. apply convertUint8_is_Some. rewrite He in Hx.
    unfold sameKinds in Hk. rewrite forallb_forall in Hk.
    apply Hk, bool_decide_eq_true in Hx. by rewrite Hx. }
  destruct (_ || _); [done|].
  destruct (bool_decide (Kind e0 = reflect.Uint8)) eqn:H8; [|done].
  destruct (assertUint8Slice v); [|done].
  destruct (mapOption_is_Some uint8Of (e0 :: es)) as [buf ->]; [|done].
  intros x Hx. apply uint8Of_is_Some.
  unfold sameKinds in Hk. rewrite forallb_forall in Hk.
  apply Hk, bool_decide_eq_true in Hx. rewrite Hx.
  by apply bool_decide_eq_true in H8.
Qed.

Lemma dumpPtrLoop_no_panic h fuel :
  forall ve i ch d msg, dumpPtrLoop h fuel ve i ch d <> Panic msg.
Proof.
  induction fuel as [|fuel IH]; intros ve i ch d msg; simpl.
  - destruct (bool_decide _); [destruct (IsNil ve)|]; done.
  - destruct (bool_decide _); [destruct (IsNil ve)|]; try done.
    destruct (cycleAt _ _); [done|].
    destruct (bool_decide _); [destruct (IsNil _)|]; try done; apply IH.
Qed.

Lemma dumpPtrLoop_wf h fuel :
  wfHeap h ->
  forall ve0 i ch d c d',
    wfValue ve0 = true ->
    dumpPtrLoop h fuel ve0 i ch d = Ok (c, d') ->
    wfValue (ve c) = true.
Proof.
  intros Hh. induction fuel as [|fuel IH]; intros ve0 i ch d c d' Hw E;
    simpl in E.
  - destruct (bool_decide _); [destruct (IsNil ve0)|]; try discriminate;
      by injection E as <- <-.
  - destruct (bool_decide (Kind ve0 = reflect.Ptr)) eqn:Hk;
      [|by injection E as <- <-].
    destruct (IsNil ve0) eqn:Hnil; [by injection E as <- <-|].
    destruct (cycleAt _ _); [by injection E as <- <-|].
    apply bool_decide_eq_true, Kind_Ptr in Hk as (t & [a|] & ->);
      [|discriminate].
    simpl in E.
    pose proof (Hh a) as Ha.
    destruct (bool_decide (Kind (h a) = reflect.Interface)) eqn:Hi.
    + apply bool_decide_eq_true, Kind_Interface in Hi as (t' & e & Hhe).
      rewrite Hhe in E, Ha. destruct e as [e|]; simpl in E.
      * eapply IH; [|exact E]. simpl in Ha. by apply andb_prop in Ha as [_ ?].
      * by injection E as <- <-.
    + eapply IH; [|exact E]. done.
Qed.

Section Safe.
Variable env : Common.
Variable h : Heap.
Hypothesis Hh : wfHeap h.

Lemma safe_writePtrComment c : safe (writePtrComment env c) /\ keeps 0 (writePtrComment env c).
Proof.
  unfold writePtrComment. destruct (_ <? _)%nat; [|split; [apply safe_skip|apply keeps_skip]].
  assert (H : forall i l, safe (writePointerChain env i l) /\ keeps 0 (writePointerChain env i l)).
  { intros i l. revert i. induction l as [|a l IH]; intros i; simpl.
    - split; [apply safe_skip|apply keeps_skip].
    - destruct (IH (S i)) as [S1 K1]. split.
      + apply safe_seq; [destruct (_ <? _)%nat; repeat keeps_step| |].
        * destruct (_ <? _)%nat; [apply safe_write|apply safe_skip].
        * apply safe_seq; [apply keeps_writeAll|apply safe_writeAll|done].
      + repeat keeps_step. }
  destruct (H 0%nat (pointerChain c)) as [S1 K1]. split.
  - apply safe_seq; [apply keeps_write|apply safe_write|].
    apply safe_seq; [done|done|apply safe_write].
  - repeat keeps_step.
Qed.

Lemma safe_dumpPtr dump fuel v :
  (forall x wp st, keeps 0 (dump x wp st)) ->
  (forall x wp st, dumpable x -> safe (dump x wp st)) ->
  wfValue v = true ->
  safe (dumpPtr env h dump fuel v).
Proof.
  intros Kd Sd Hw d Hd msg. unfold dumpPtr.
  destruct (dumpPtrLoop h fuel v 0 [] (purgePointers d)) as [[c d1]| |] eqn:EL;
    [| |done].
  2:{ by destruct (dumpPtrLoop_no_panic _ _ _ _ _ _ _ EL). }
  pose proof (dumpPtrLoop_keeps 0 _ _ _ _ _ _ _ _ EL) as (D1 & _).
  pose proof (dumpPtrLoop_wf _ _ Hh _ _ _ _ _ _ Hw EL) as Hwc.
  apply dumpPtrLoop_follow in EL as (k & Hi & _ & _).
  rewrite Z.add_0_l in Hi. simpl in D1.
  destruct (wfValue_Type _ Hwc) as (t & Ht & Hwt).
  destruct (wfType_firstIsStar _ Hwt) as (star & Hstar).
  destruct (safe_writePtrComment c) as [S2 K2].
  assert (K1 : keeps 0 (writePtrType c)).
  { unfold writePtrType. repeat keeps_step. }
  assert (S1 : safe (writePtrType c)).
  { unfold writePtrType. rewrite Hi, Ht, Hstar. unfold bytesRepeat.
    destruct (Z.of_nat k <? 0) eqn:E; [apply Z.ltb_lt in E; lia|].
    apply safe_seq; [apply keeps_write|apply safe_write|].
    destruct star; repeat (apply safe_seq; [repeat keeps_step| |]);
      auto using safe_write, safe_skip. }
  apply safe_seq; [done|done| |lia].
  apply safe_seq; [done|done|].
  destruct (nilFound c).
  { repeat (apply safe_seq; [repeat keeps_step| |]); apply safe_write. }
  destruct (cycleFound c); [apply safe_write|].
  apply safe_seq; [repeat keeps_step|apply safe_setIgnoreNextType|].
  apply Sd. by left.
Qed.

Lemma safe_dumpUnpacked dump x :
  (forall x wp st, dumpable x -> safe (dump x wp st)) ->
  dumpable x ->
  safe (let '(x', wasPtr, static) := unpackValue h x in dump x' wasPtr static).
Proof.
  intros Sd Hx. pose proof (dumpable_unpack h x Hx) as H.
  destruct (unpackValue h x) as [[x' wp] st]. simpl in H. by apply Sd.
Qed.

Lemma keeps_dumpUnpacked dump x :
  (forall x wp st, keeps 0 (dump x wp st)) ->
  keeps 0 (let '(x', wasPtr, static) := unpackValue h x in dump x' wasPtr static).
Proof. intros Kd. destruct (unpackValue h x) as [[x' wp] st]. apply Kd. Qed.

Lemma safe_dumpSlice dump v :
  (forall x wp st, keeps 0 (dump x wp st)) ->
  (forall x wp st, dumpable x -> safe (dump x wp st)) ->
  forallb wfValue (elems v) = true -> sameKinds (elems v) = true ->
  safe (dumpSlice env h dump v).
Proof.
  intros Kd Sd Hw Hk. unfold dumpSlice.
  pose proof (hexBuffer_no_panic env v) as Hp.
  destruct (hexBuffer env v) as [[buf|]|msg|].
  - apply safe_withState. intros d0 Hd0. unfold bytesRepeat.
    destruct (depth d0 <? 0) eqn:E; [apply Z.ltb_lt in E; lia|].
    apply safe_writeAll.
  - apply safe_forEach.
    + intros x _. pose proof (keeps_dumpUnpacked dump x Kd).
      destruct (unpackValue h x) as [[x' wp] st]. repeat keeps_step.
    + intros x Hx. 
      assert (Hdx : dumpable x).
      { left. rewrite forallb_forall in Hw. by apply Hw, list_elem_of_In. }
      pose proof (safe_dumpUnpacked dump x Sd Hdx).
      pose proof (keeps_dumpUnpacked dump x Kd).
      destruct (unpackValue h x) as [[x' wp] st].
      apply safe_seq; [done|done|apply safe_write].
  - by destruct (Hp msg Hw Hk).
  - intros d _ msg. done.
Qed.

Ltac safe_step :=
  match goal with
  | |- safe skip => apply safe_skip
  | |- safe (write _) => apply safe_write
  | |- safe (writeAll _) => apply safe_writeAll
  | |- safe (setIgnoreNextType _) => apply safe_setIgnoreNextType
  | |- safe (setIgnoreNextIndent _) => apply safe_setIgnoreNextIndent
  | |- safe indent => apply safe_indent
  | |- safe (incDepth ;; _ ;; decDepth ;; _) =>
      apply safe_bracket; [repeat keeps_step | |]
  | |- safe (_ ;; _) => apply safe_seq; [repeat keeps_step | |]
  | |- safe (if ?b then _ else _) => destruct b
  | |- safe _ => assumption
  end.

Lemma safe_dumpKind dump v wantType :
  (forall x wp st, keeps 0 (dump x wp st)) ->
  (forall x wp st, dumpable x -> safe (dump x wp st)) ->
  dumpable v ->
  safe (dumpKind env h dump v wantType).
Proof.
  intros Kd Sd [Hw| ->]; [|apply safe_skip].
  pose proof (keeps_indent 0) as Ki.
  pose proof (keeps_dumpSlice 0 env h dump) as Ks.
  destruct v as [| | | | | |t k re im| | |t e|t [es|]|t es|t [kvs|]|t fs| |];
    simpl; try (try destruct k; repeat safe_step; fail).
  - (* slice *)
    simpl in Hw. apply andb_prop in Hw as [Hw Hk]. apply andb_prop in Hw as [_ Hw].
    repeat safe_step; auto. by apply safe_dumpSlice.
  - (* array *)
    simpl in Hw. apply andb_prop in Hw as [Hw Hk]. apply andb_prop in Hw as [_ Hw].
    repeat safe_step; auto. by apply safe_dumpSlice.
  - (* map *)
    simpl in Hw. apply andb_prop in Hw as [_ Hw].
    assert (Hkey : forall key, key ∈ MapKeys kvs -> dumpable key).
    { intros key Hin. unfold MapKeys in Hin. apply list_elem_of_fmap in Hin as ([k v] & -> & Hin).
      rewrite forallb_forall in Hw. apply list_elem_of_In, Hw in Hin.
      apply andb_prop in Hin as [? _]. by left. }
    assert (Kbody : forall key, keeps 0
      ((let '(x', wasPtr, static) := unpackValue h key in dump x' wasPtr static);;
       write colonSpaceBytes;; setIgnoreNextIndent true;;
       (let '(x', wasPtr, static) := unpackValue h (MapIndex kvs key) in dump x' wasPtr static);;
       write commaNewlineBytes)).
    { intros key. pose proof (keeps_dumpUnpacked dump key Kd).
      pose proof (keeps_dumpUnpacked dump (MapIndex kvs key) Kd).
      repeat keeps_step. }
    apply safe_seq; [apply keeps_write | apply safe_write |].
    apply safe_bracket; [repeat keeps_step; apply Kbody | | repeat safe_step].
    apply safe_withState. intros d0 _.
    apply safe_forEach; [intros; apply Kbody|].
    intros key Hin.
    assert (Hin' : key ∈ MapKeys kvs).
    { destruct (SortKeys (cs d0)); [|done].
      by rewrite sortValues_Permutation in Hin. }
    pose proof (safe_dumpUnpacked dump key Sd (Hkey key Hin')).
    pose proof (safe_dumpUnpacked dump (MapIndex kvs key) Sd (MapIndex_dumpable kvs key Hw)).
    pose proof (keeps_dumpUnpacked dump key Kd).
    pose proof (keeps_dumpUnpacked dump (MapIndex kvs key) Kd).
    repeat safe_step.
  - (* struct *)
    simpl in Hw. apply andb_prop in Hw as [_ Hw].
    assert (Kbody : forall (f : StructField * Value) d0, keeps 0
      (if IgnoreUnexported (cs d0) && negb (String.eqb (PkgPath (fst f)) "")
       then skip
       else indent;; write (Name (fst f));; write colonSpaceBytes;;
            setIgnoreNextIndent true;;
            (let '(x', wasPtr, static) := unpackValue h (snd f) in dump x' wasPtr static);;
            write commaNewlineBytes)).
    { intros f d0. pose proof (keeps_dumpUnpacked dump (snd f) Kd).
      repeat keeps_step. }
    apply safe_seq; [apply keeps_write | apply safe_write |].
    apply safe_bracket; [repeat keeps_step; apply Kbody | | repeat safe_step].
    apply safe_forEach; [intros; repeat keeps_step; apply Kbody|].
    intros f Hin. apply safe_withState. intros d0 _.
    assert (Hf : dumpable (snd f)).
    { left. rewrite forallb_forall in Hw. by apply list_elem_of_In, Hw in Hin. }
    pose proof (safe_dumpUnpacked dump (snd f) Sd Hf).
    pose proof (keeps_dumpUnpacked dump (snd f) Kd).
    repeat safe_step.
Qed.

Lemma safe_dump fuel :
  forall v wp st, dumpable v -> safe (dump env h fuel v wp st).
Proof.
  induction fuel as [|fuel IH]; intros v wp st Hv; simpl.
  - intros d _ msg. done.
  - pose proof (keeps_dump 0 env h fuel) as Kd.
    pose proof (keeps_indent 0) as Ki.
    destruct (bool_decide (Kind v = reflect.Invalid)) eqn:Hinv; [apply safe_write|].
    destruct Hv as [Hw| ->]; [|done].
    destruct (bool_decide (Kind v = reflect.Ptr)) eqn:Hptr.
    + apply safe_seq; [done|apply safe_indent|].
      by apply safe_dumpPtr.
    + destruct (wfValue_Type _ Hw) as (t & -> & _).
      pose proof (fun W => keeps_dumpKind 0 env h (dump env h fuel) v W Kd) as Kk.
      pose proof (fun W => safe_dumpKind (dump env h fuel) v W Kd IH (or_introl Hw)) as Sk.
      apply safe_withState. intros d0 _.
      repeat safe_step; auto.
Qed.

End Safe.

Lemma writeAll_Ok bs d :
  exists d', writeAll bs d = Ok d' /\ w d' = w d ++ bs.
Proof.
  revert d. induction bs as [|b bs IH]; intros d; simpl.
  - exists d. split; [done|]. by rewrite app_nil_r.
  - unfold andThen. simpl. destruct (IH (mkState (w d ++ [b]) (depth d)
      (pointers d) (ignoreNextType d) (ignoreNextIndent d) (cs d) (nodes d)))
      as (d' & E & W).
    exists d'. split; [done|]. rewrite W. simpl. by rewrite <- app_assoc.
Qed.

(** C8. The traversal fdump starts on a well-formed value, in a well-formed
    heap, does not panic, whatever the fuel.  The zero Value is rendered as
    the invalid marker; a value of a kind the switch does not know is
    rendered by fmt, from its interface when that can be had and from its
    String() text when not; and elements named like a C character type
    that cannot be converted to uint8 are not hexdumped, so that dumpSlice
    goes on to dump them one by one. *)
Theorem traversal_never_panics env h fuel c wr a :
  wfHeap h ->
  (forall v, a = Some v -> wfValue v = true) ->
  (forall msg, fdump env h fuel c wr a <> Panic msg)
  /\ (forall wasPtr static d,
        dump env h (S fuel) VInvalid wasPtr static d
        = write (invalidAngleBytes env) d)
  /\ (forall f t n wantType d,
        exists d',
          dumpKind env h f (VOther t n) wantType d = Ok d'
          /\ w d' = w d ++ (if CanInterface env (VOther t n)
                            then fmtValue env (VOther t n)
                            else [valueString (VOther t n)]))
  /\ (forall v e0 es vt,
        elems v = e0 :: es -> Type_ e0 = Some vt ->
        cCharRE (tString vt) = true ->
        ConvertibleToUint8 (Kind e0) = false ->
        hexBuffer env v = Ok None).
Proof.
  intros Hh Ha. split_and!.
  - intros msg. unfold fdump. destruct a as [v|]; [|done].
    pose proof (safe_dump env h Hh fuel v false false
                  (or_introl (Ha v eq_refl))) as Hs.
    pose proof (keeps_dump 0 env h fuel v false false) as Hk.
    pose proof (safe_seq _ (write newlineBytes) Hk Hs (safe_write _)) as H.
    specialize (H (mkState wr 0 ∅ false false c []) ltac:(simpl; lia) msg).
    destruct ((dump env h fuel v false false;; write newlineBytes) _);
      congruence.
  - reflexivity.
  - intros f t n wantType d. simpl. destruct (CanInterface env _).
    + apply writeAll_Ok.
    + eexists. split; reflexivity.
  - intros v e0 es vt He Ht Hc Hn. unfold hexBuffer, convertAll.
    by rewrite He, Ht, Hc, Hn.
Qed.

Lemma demoHeap_wf : wfHeap demoHeap.
Proof. intros a. unfold demoHeap. destruct (a =? 48); reflexivity. Qed.

Lemma traversal_never_panics_witness :
  wfHeap demoHeap
  /\ wfValue sharedInt = true
  /\ forall msg,
       fdump plainCommon demoHeap 9 defaultConfig [] (Some sharedInt)
       <> Panic msg.
Proof.
  split_and!; [exact demoHeap_wf | reflexivity |].
  apply (traversal_never_panics plainCommon demoHeap 9 defaultConfig []
           (Some sharedInt)).
  - exact demoHeap_wf.
  - intros v [= <-]. reflexivity.
Defined.

(** ** More on the pointer table *)

Lemma cycleAt_purge d a : cycleAt (purgePointers d) a = cycleAt d a.
Proof.
  unfold cycleAt.
  destruct (pointers (purgePointers d) !! a) as [pd|] eqn:E.
  - apply purge_lookup in E as [E Hlt]. simpl. rewrite E. done.
  - destruct (pointers d !! a) as [pd|] eqn:E'; [|done].
    simpl. destruct (pd <? depth d) eqn:Hlt; [|done].
    apply Z.ltb_lt in Hlt.
    assert (H : pointers (purgePointers d) !! a = Some pd)
      by (by apply purge_lookup).
    congruence.
Qed.

Lemma cycleAt_frame d d' a :
  depth d' = depth d -> frame (depth d) d d' -> cycleAt d' a = cycleAt d a.
Proof.
  intros D F. unfold cycleAt. rewrite D.
  destruct (pointers d' !! a) as [pd'|] eqn:E'.
  - destruct (pd' <? depth d) eqn:H'.
    + pose proof (proj1 (Z.ltb_lt _ _) H') as L.
      apply (F a pd' L) in E'. by rewrite E', H'.
    + destruct (pointers d !! a) as [pd|] eqn:E; [|done].
      destruct (pd <? depth d) eqn:H; [|done].
      pose proof (proj1 (Z.ltb_lt _ _) H) as L.
      apply (F a pd L) in E. congruence.
  - destruct (pointers d !! a) as [pd|] eqn:E; [|done].
    destruct (pd <? depth d) eqn:H; [|done].
    pose proof (proj1 (Z.ltb_lt _ _) H) as L.
    apply (F a pd L) in E. congruence.
Qed.

(** X3. After a value has been dumped, or walked, the cycle test gives for
    every address the verdict it gave before: what the value left in the
    table is not taken for an ancestor by the next value at that depth, and
    an ancestor is still found.  Two sibling pointers to one address are
    therefore treated alike. *)
Theorem cycle_verdicts_kept env h fuel v wasPtr static addr d d' :
  dump env h fuel v wasPtr static d = Ok d'
  \/ walk h fuel v wasPtr static addr d = Ok d' ->
  forall a, cycleAt d' a = cycleAt d a.
Proof.
  intros [E|E] a.
  - destruct (keeps_dump (depth d) env h fuel v wasPtr static d d' E)
      as (D & _ & _ & F).
    apply cycleAt_frame; [done|]. apply F. lia.
  - destruct (keeps_walk (depth d) h fuel v wasPtr static addr d d' E)
      as (D & _ & _ & F).
    apply cycleAt_frame; [done|]. apply F. lia.
Qed.

Lemma cycle_verdicts_kept_witness :
  exists d',
    dump plainCommon demoHeap 9 sharedInt false false insideState = Ok d'
    /\ forall a, cycleAt d' a = cycleAt insideState a.
Proof.
  eexists. split.
  - vm_compute. reflexivity.
  - apply (cycle_verdicts_kept plainCommon demoHeap 9 sharedInt false false 0).
    left. vm_compute. reflexivity.
Defined.

Lemma appendW_nil d : appendW [] d = d.
Proof. destruct d. unfold appendW. simpl. by rewrite app_nil_r. Qed.

Lemma appendW_app o1 o2 d : appendW o2 (appendW o1 d) = appendW (o1 ++ o2) d.
Proof. unfold appendW. simpl. by rewrite <- app_assoc. Qed.

Lemma write_eq b d : write b d = Ok (appendW [b] d).
Proof. reflexivity. Qed.

Lemma writeAll_eq bs d : writeAll bs d = Ok (appendW bs d).
Proof.
  revert d. induction bs as [|b bs IH]; intros d; simpl.
  - by rewrite appendW_nil.
  - unfold andThen. rewrite write_eq, IH, appendW_app. done.
Qed.

Lemma andThen_eq (a b : action) d d1 : a d = Ok d1 -> (a ;; b) d = b d1.
Proof. intros E. unfold andThen. by rewrite E. Qed.

Lemma andThen_assoc (a b c : action) d :
  ((a ;; b) ;; c) d = (a ;; b ;; c) d.
Proof. unfold andThen. by destruct (a d). Qed.

Lemma skip_eq d : skip d = Ok d.
Proof. reflexivity. Qed.

Ltac run_writes :=
  repeat first
    [ rewrite andThen_assoc
    | erewrite andThen_eq;
      [|first [apply write_eq | apply writeAll_eq | apply skip_eq]] ];
  rewrite ?write_eq, ?writeAll_eq, ?skip_eq, ?appendW_app.

Lemma writePtrType_eq c t star d :
  0 <= indirects c -> Type_ (ve c) = Some t ->
  firstIsStar (tString t) = Some star ->
  writePtrType c d
  = Ok (appendW (String.concat "" (repeat "&" (Z.to_nat (indirects c)))
                 :: typeChunks t star) d).
Proof.
  intros Hi Ht Hs. unfold writePtrType, bytesRepeat.
  destruct (indirects c <? 0) eqn:E; [apply Z.ltb_lt in E; lia|].
  rewrite Ht, Hs. unfold typeChunks.
  destruct star; unfold andThen; simpl; unfold appendW, write, skip; simpl;
    rewrite <- ?app_assoc; reflexivity.
Qed.

(** X1. When dumpPtr is given a pointer whose address is in the table at a
    depth below the current one, it writes no ampersand, the type of the
    pointer, the address comment if CommentPointers is set, and the circular
    marker, once; it does not call dump, and the table is left as the purge
    made it. *)
Theorem ancestor_cycle_marked env h f fuel t a star d :
  cycleAt d a = true ->
  firstIsStar (tString t) = Some star ->
  dumpPtr env h f (S fuel) (VPtr t (Some a)) d
  = Ok (appendW ([""] ++ typeChunks t star ++ pointerComment env (cs d) a
                 ++ [circularBytes env])
                (purgePointers d)).
Proof.
  intros Hc Hs. unfold dumpPtr. simpl.
  rewrite cycleAt_purge, Hc.
  erewrite andThen_eq;
    [|apply (writePtrType_eq _ t star); [simpl; lia | reflexivity | exact Hs]].
  simpl. unfold writePtrComment, pointerComment. simpl.
  destruct (CommentPointers (cs d)); simpl; run_writes;
    do 2 f_equal; simpl; rewrite <- ?app_assoc; reflexivity.
Qed.

Lemma ancestor_cycle_marked_witness :
  dumpPtr plainCommon demoHeap (dump plainCommon demoHeap 0) 1
          (VPtr ptrToInt (Some 16)) insideState
  = Ok (appendW ([""] ++ typeChunks ptrToInt true
                 ++ pointerComment plainCommon (cs insideState) 16
                 ++ [circularBytes plainCommon])
                (purgePointers insideState)).
Proof.
  apply (ancestor_cycle_marked plainCommon demoHeap _ 0 ptrToInt 16 true
                               insideState); reflexivity.
Defined.

(** X2. For a nil pointer dumpPtr writes no ampersand, the type of the
    pointer and "(nil)", whatever the fuel; it follows nothing and calls
    nothing. *)
Theorem nil_pointer_rendered env h f fuel t star d :
  firstIsStar (tString t) = Some star ->
  dumpPtr env h f fuel (VPtr t None) d
  = Ok (appendW ([""] ++ typeChunks t star ++ ["("; "nil"; ")"])
                (purgePointers d)).
Proof.
  intros Hs. unfold dumpPtr.
  assert (EL : dumpPtrLoop h fuel (VPtr t None) 0 [] (purgePointers d)
               = Ok (mkChain (VPtr t None) 0 [] true false, purgePointers d))
    by (by destruct fuel).
  rewrite EL.
  erewrite andThen_eq;
    [|apply (writePtrType_eq _ t star); [simpl; lia | reflexivity | exact Hs]].
  simpl. run_writes. do 2 f_equal; simpl; rewrite <- ?app_assoc; reflexivity.
Qed.

Lemma nil_pointer_rendered_witness :
  dumpPtr plainCommon demoHeap (dump plainCommon demoHeap 0) 0
          (VPtr ptrToInt None) insideState
  = Ok (appendW ([""] ++ typeChunks ptrToInt true ++ ["("; "nil"; ")"])
                (purgePointers insideState)).
Proof.
  apply (nil_pointer_rendered plainCommon demoHeap _ 0 ptrToInt true
                              insideState); reflexivity.
Defined.

(** ** What dump writes for scalars and for nil and empty containers *)

Lemma setIgnoreNextType_id d :
  ignoreNextType d = false -> setIgnoreNextType false d = Ok d.
Proof. intros H. destruct d. simpl in H. subst. reflexivity. Qed.

Lemma indent_eq d ind :
  ignoreNextIndent d = false ->
  bytesRepeat (Indent (cs d)) (depth d) = Some ind ->
  indent d = Ok (appendW [ind] d).
Proof. intros Hi Hb. unfold indent, withState. by rewrite Hi, Hb. Qed.

Lemma bytesRepeat_Some b n : 0 <= n -> exists s, bytesRepeat b n = Some s.
Proof.
  intros Hn. unfold bytesRepeat.
  destruct (n <? 0) eqn:E; [apply Z.ltb_lt in E; lia|]. eauto.
Qed.

Ltac run_dump :=
  repeat first
    [ rewrite andThen_assoc
    | erewrite andThen_eq;
      [|first [ apply write_eq | apply writeAll_eq | apply skip_eq
              | apply setIgnoreNextType_id; assumption
              | apply indent_eq; eassumption ]] ];
  rewrite ?write_eq, ?writeAll_eq, ?skip_eq, ?appendW_app.

(** X4. Without type elision, and with no suppression pending, dump
    renders a scalar as its indentation, its type name and the value between
    parentheses: a signed integer in base 10, an unsigned one in base 16
    after "0x", a boolean, a string quoted. *)
Theorem scalars_rendered env h fuel wasPtr static d ind :
  ElideType (cs d) = false ->
  ignoreNextType d = false ->
  ignoreNextIndent d = false ->
  bytesRepeat (Indent (cs d)) (depth d) = Some ind ->
  (forall t k i,
     dump env h (S fuel) (VInt t k i) wasPtr static d
     = Ok (appendW ([ind; typeName t; "("] ++ printInt env i 10 ++ [")"]) d))
  /\ (forall t k u,
        dump env h (S fuel) (VUint t k u) wasPtr static d
        = Ok (appendW ([ind; typeName t; "("; "0x"] ++ printUint env u 16
                       ++ [")"]) d))
  /\ (forall t b,
        dump env h (S fuel) (VBool t b) wasPtr static d
        = Ok (appendW ([ind; typeName t; "("] ++ printBool env b ++ [")"]) d))
  /\ (forall t s,
        dump env h (S fuel) (VString t s) wasPtr static d
        = Ok (appendW [ind; typeName t; "("; strconvQuote env s; ")"] d)).
Proof.
  intros He Ht Hi Hb.
  split_and!; intros; try destruct k; simpl; unfold withState, wantTypeOf;
    rewrite He, Ht; simpl; run_dump;
    destruct d; simpl in *; subst; unfold appendW, typeName; simpl;
    rewrite <- ?app_assoc; reflexivity.
Qed.

Lemma scalars_rendered_witness :
  (forall t k i,
     dump plainCommon demoHeap 1 (VInt t k i) false false insideState
     = Ok (appendW ([" "; typeName t; "("] ++ printInt plainCommon i 10
                    ++ [")"]) insideState))
  /\ (forall t k u,
        dump plainCommon demoHeap 1 (VUint t k u) false false insideState
        = Ok (appendW ([" "; typeName t; "("; "0x"]
                       ++ printUint plainCommon u 16 ++ [")"]) insideState))
  /\ (forall t b,
        dump plainCommon demoHeap 1 (VBool t b) false false insideState
        = Ok (appendW ([" "; typeName t; "("] ++ printBool plainCommon b
                       ++ [")"]) insideState))
  /\ (forall t s,
        dump plainCommon demoHeap 1 (VString t s) false false insideState
        = Ok (appendW [" "; typeName t; "("; strconvQuote plainCommon s; ")"]
                      insideState)).
Proof.
  apply (scalars_rendered plainCommon demoHeap 0 false false insideState " ");
    reflexivity.
Defined.

Lemma wantTypeOf_compound c v typ wp st :
  isCompound (Kind v) = true -> wantTypeOf c v typ wp st = true.
Proof.
  intros Hc. unfold wantTypeOf. rewrite Hc.
  destruct (ElideType c); [|done].
  destruct (bool_decide (Kind v = reflect.Interface)) eqn:Hi.
  - apply bool_decide_eq_true in Hi. rewrite Hi in Hc. discriminate.
  - simpl. by rewrite orb_true_r.
Qed.

Lemma incDepth_eq d :
  incDepth d = Ok (mkState (w d) (depth d + 1) (pointers d) (ignoreNextType d)
                           (ignoreNextIndent d) (cs d) (nodes d)).
Proof. reflexivity. Qed.

(** X5. A nil slice and a nil map are rendered as the type name and
    "(nil)"; an empty slice, an empty map and a struct without fields as the
    type name, an opening brace at the end of its line and the closing brace
    on the next, indented like the opening.  The type name is written
    whether types are elided or not. *)
Theorem nil_and_empty_containers env h fuel wasPtr static d ind :
  ignoreNextType d = false ->
  ignoreNextIndent d = false ->
  bytesRepeat (Indent (cs d)) (depth d) = Some ind ->
  (forall t,
     dump env h (S fuel) (VSlice t None) wasPtr static d
     = Ok (appendW [ind; typeName t; "("; "nil"; ")"] d))
  /\ (forall t,
        dump env h (S fuel) (VMap t None) wasPtr static d
        = Ok (appendW [ind; typeName t; "("; "nil"; ")"] d))
  /\ (forall t,
        dump env h (S fuel) (VSlice t (Some [])) wasPtr static d
        = Ok (appendW [ind; typeName t; openBraceNewlineBytes; ind; "}"] d))
  /\ (forall t,
        dump env h (S fuel) (VMap t (Some [])) wasPtr static d
        = Ok (appendW [ind; typeName t; openBraceNewlineBytes; ind; "}"] d))
  /\ (forall t,
        dump env h (S fuel) (VStruct t []) wasPtr static d
        = Ok (appendW [ind; typeName t; openBraceNewlineBytes; ind; "}"] d)).
Proof.
  intros Ht Hi Hb.
  split_and!; intros t; simpl; unfold withState;
    rewrite wantTypeOf_compound by reflexivity; rewrite Ht; simpl;
    unfold dumpSlice, withState; simpl.
  all: destruct d as [w0 n m it ii c ns]; simpl in *; subst.
  all: unfold andThen, indent, withState, incDepth, decDepth, setDepth; simpl.
  all: rewrite ?Hb; simpl.
  all: rewrite ?Z.add_simpl_r, ?Hb; simpl.
  all: unfold appendW, typeName; simpl; rewrite <- ?app_assoc; try reflexivity.
  all: destruct (SortKeys c); simpl; rewrite ?Z.add_simpl_r, ?Hb; simpl;
    rewrite <- ?app_assoc; reflexivity.
Qed.

Lemma nil_and_empty_containers_witness :
  (forall t,
     dump plainCommon demoHeap 1 (VSlice t None) false false insideState
     = Ok (appendW [" "; typeName t; "("; "nil"; ")"] insideState))
  /\ (forall t,
        dump plainCommon demoHeap 1 (VMap t None) false false insideState
        = Ok (appendW [" "; typeName t; "("; "nil"; ")"] insideState))
  /\ (forall t,
        dump plainCommon demoHeap 1 (VSlice t (Some [])) false false insideState
        = Ok (appendW [" "; typeName t; openBraceNewlineBytes; " "; "}"]
                      insideState))
  /\ (forall t,
        dump plainCommon demoHeap 1 (VMap t (Some [])) false false insideState
        = Ok (appendW [" "; typeName t; openBraceNewlineBytes; " "; "}"]
                      insideState))
  /\ (forall t,
        dump plainCommon demoHeap 1 (VStruct t []) false false insideState
        = Ok (appendW [" "; typeName t; openBraceNewlineBytes; " "; "}"]
                      insideState)).
Proof.
  apply (nil_and_empty_containers plainCommon demoHeap 0 false false
                                  insideState " "); reflexivity.
Defined.

(** ** Byte slices *)

Lemma mapOption_map {A B C} (f : B -> option C) (g : A -> B) (k : A -> C) l :
  (forall x, In x l -> f (g x) = Some (k x)) ->
  mapOption f (map g l) = Some (map k l).
Proof.
  induction l as [|x l IH]; intros H; simpl; [done|].
  rewrite (H x) by (by left). rewrite IH; [done|].
  intros y Hy. apply H. by right.
Qed.

(** X6. A slice or an array that is not empty and whose elements are uint8
    values is hexdumped whole: the buffer is the bytes of the elements,
    whether the slice can be had as a [[]uint8] or has to be converted
    element by element and whatever the name of the element type, and
    dumpSlice writes what hexDump makes of it and dumps no element. *)
Theorem byte_elements_hexdumped env h f t t8 b bs v d ind :
  v = VSlice t (Some (map (VUint t8 KUint8) (b :: bs)))
  \/ v = VArray t (map (VUint t8 KUint8) (b :: bs)) ->
  Forall (fun x => 0 <= x < 256) (b :: bs) ->
  bytesRepeat (Indent (cs d)) (depth d) = Some ind ->
  hexBuffer env v = Ok (Some (b :: bs))
  /\ dumpSlice env h f v d
     = Ok (appendW (hexDump env (b :: bs) ind (BytesWidth (cs d))
                            (CommentBytes (cs d))) d).
Proof.
  intros Hv Hr Hb.
  assert (He : elems v = map (VUint t8 KUint8) (b :: bs))
    by (by destruct Hv as [-> | ->]).
  assert (Hconv : convertAll env v (VUint t8 KUint8 b) = Ok (Some (b :: bs))).
  { unfold convertAll. simpl. rewrite He.
    rewrite (mapOption_map _ _ (fun x => x)); [by rewrite map_id|].
    intros x Hx. simpl. rewrite Forall_forall in Hr.
    f_equal. apply Z.mod_small. apply Hr. by apply list_elem_of_In. }
  assert (Hhex : hexBuffer env v = Ok (Some (b :: bs))).
  { unfold hexBuffer. rewrite He. simpl.
    destruct (_ || _); [done|].
    assert (Hvs : (if negb (CanInterface env v) || negb (CanAddr env v)
                   then unsafeReflectValue v else v) = v)
      by (by destruct (_ || _)).
    rewrite Hvs. destruct (assertUint8Slice v); [|done].
    rewrite He. rewrite (mapOption_map _ _ (fun x => x)); [by rewrite map_id|].
    done. }
  split; [done|].
  unfold dumpSlice. rewrite Hhex. unfold withState. rewrite Hb.
  apply writeAll_eq.
Qed.

Lemma byte_elements_hexdumped_witness :
  hexBuffer plainCommon
            (VSlice (unnamedType "[]uint8")
               (Some (map (VUint (basicType "uint8") KUint8) [17; 18])))
  = Ok (Some [17; 18])
  /\ dumpSlice plainCommon demoHeap (dump plainCommon demoHeap 0)
               (VSlice (unnamedType "[]uint8")
                  (Some (map (VUint (basicType "uint8") KUint8) [17; 18])))
               insideState
     = Ok (appendW (hexDump plainCommon [17; 18] " "
                            (BytesWidth (cs insideState))
                            (CommentBytes (cs insideState))) insideState).
Proof.
  apply (byte_elements_hexdumped plainCommon demoHeap _
           (unnamedType "[]uint8") (basicType "uint8") 17 [18]).
  - left. reflexivity.
  - apply (bool_decide_unpack _). vm_compute. reflexivity.
  - reflexivity.
Defined.

(** ** Fields that are not exported *)

Lemma forEach_filter {A} (body : A -> action) (keep : A -> bool)
    (P : dumpState -> Prop) :
  (forall x d, P d -> keep x = false -> body x d = Ok d) ->
  (forall x d d', P d -> body x d = Ok d' -> P d') ->
  forall l d, P d -> forEach body l d = forEach body (List.filter keep l) d.
Proof.
  intros Hskip Hpres. induction l as [|x l IH]; intros d Hd; simpl; [done|].
  destruct (keep x) eqn:Hk; simpl.
  - unfold andThen. destruct (body x d) as [d1| |] eqn:E; [|done|done].
    apply IH. eapply Hpres; eassumption.
  - unfold andThen. rewrite (Hskip x d Hd Hk). by apply IH.
Qed.

(** X7. With IgnoreUnexported set, dump and walk treat a struct as they
    treat the struct of its exported fields alone: the same writes, the same
    state, the same panic if there is one.  A field that is not exported is
    not looked at. *)
Theorem unexported_fields_skipped env h fuel t fs wp st addr d :
  IgnoreUnexported (cs d) = true ->
  dump env h fuel (VStruct t fs) wp st d
  = dump env h fuel (VStruct t (exportedFields fs)) wp st d
  /\ walk h fuel (VStruct t fs) wp st addr d
     = walk h fuel (VStruct t (exportedFields fs)) wp st addr d.
Proof.
  intros Hc. destruct fuel as [|fuel]; [done|]. split.
  - simpl. unfold withState at 1 3.
    change (wantTypeOf (cs d) (VStruct t (exportedFields fs)) t wp st)
      with (wantTypeOf (cs d) (VStruct t fs) t wp st).
    pose proof (keeps_indent 0) as Hind.
    apply andThen_ext_r. intros d1 E1. keeps_cs E1.
    apply andThen_ext_r. intros d2 E2. keeps_cs E2.
    apply andThen_ext_r. intros d3 E3. keeps_cs E3.
    apply andThen_ext_l.
    apply andThen_ext_r. intros d4 E4. keeps_cs E4.
    apply andThen_ext_r. intros d5 E5. injection E5 as <-.
    apply andThen_ext_l.
    apply (forEach_filter _ exportedField (fun d => IgnoreUnexported (cs d) = true)).
    + intros f d0 Hd0 Hk. unfold withState. rewrite Hd0. unfold exportedField in Hk.
      by rewrite Hk.
    + intros f d0 d0' Hd0 E. 
      assert (K : keeps 0 (withState (fun d : dumpState =>
        if IgnoreUnexported (cs d) && negb (String.eqb (PkgPath (fst f)) "")
        then skip
        else indent;; write (Name (fst f));; write colonSpaceBytes;;
             setIgnoreNextIndent true;;
             (let '(x', wasPtr, static) := unpackValue h (snd f) in
              dump env h fuel x' wasPtr static);;
             write commaNewlineBytes))).
      { pose proof (keeps_dump 0 env h fuel). pose proof (keeps_indent 0).
        repeat keeps_step. }
      destruct (K _ _ E) as (_ & -> & _). done.
    + simpl. congruence.
  - simpl.
    apply andThen_ext_r. intros d1 E1. injection E1 as <-.
    apply andThen_ext_l.
    apply (forEach_filter _ exportedField (fun d => IgnoreUnexported (cs d) = true)).
    + intros f d0 Hd0 Hk. unfold withState. rewrite Hd0. unfold exportedField in Hk.
      by rewrite Hk.
    + intros f d0 d0' Hd0 E.
      assert (K : keeps 0 (withState (fun d : dumpState =>
        if IgnoreUnexported (cs d) && negb (String.eqb (PkgPath (fst f)) "")
        then skip else walkUnpacked h (walk h fuel) (snd f)))).
      { pose proof (keeps_walk 0 h fuel).
        pose proof (fun x => keeps_walkUnpacked 0 h (walk h fuel) x H).
        repeat keeps_step. apply H0. }
      destruct (K _ _ E) as (_ & -> & _). done.
    + simpl. congruence.
Qed.

Lemma unexported_fields_skipped_witness :
  dump plainCommon demoHeap 9 (VStruct (namedType "main" "S") mixedFields)
       false false (startState exportedConfig [])
  = dump plainCommon demoHeap 9
         (VStruct (namedType "main" "S") (exportedFields mixedFields))
         false false (startState exportedConfig [])
  /\ walk demoHeap 9 (VStruct (namedType "main" "S") mixedFields)
          false false 0 (startState exportedConfig [])
     = walk demoHeap 9
            (VStruct (namedType "main" "S") (exportedFields mixedFields))
            false false 0 (startState exportedConfig []).
Proof.
  apply (unexported_fields_skipped plainCommon demoHeap 9
           (namedType "main" "S") mixedFields false false 0
           (startState exportedConfig [])).
  reflexivity.
Defined.

(** ** walk writes nothing *)

Lemma onlyNodesAdded_refl d : onlyNodesAdded d d.
Proof. split_and!; auto. exists []. by rewrite app_nil_r. Qed.

Lemma onlyNodesAdded_trans d1 d2 d3 :
  onlyNodesAdded d1 d2 -> onlyNodesAdded d2 d3 -> onlyNodesAdded d1 d3.
Proof.
  intros (W1 & T1 & I1 & l1 & N1) (W2 & T2 & I2 & l2 & N2).
  split_and!; try congruence. exists (l1 ++ l2). rewrite N2, N1.
  by rewrite app_assoc.
Qed.

Lemma onlyNodesAdded_addNode n d : onlyNodesAdded d (addNode n d).
Proof.
  split_and!; auto. unfold addNode. simpl.
  destruct (bool_decide _); [exists []; by rewrite app_nil_r|by exists [n]].
Qed.

Lemma addNode_elem n d : n ∈ nodes (addNode n d).
Proof.
  unfold addNode. simpl. destruct (bool_decide (n ∈ nodes d)) eqn:Hb.
  - by apply bool_decide_eq_true in Hb.
  - apply elem_of_app. right. by left.
Qed.

Lemma quiet_skip : quiet skip.
Proof. intros d d' [= <-]. apply onlyNodesAdded_refl. Qed.

Lemma quiet_incDepth : quiet incDepth.
Proof. intros d d' [= <-]. split_and!; auto. exists []. simpl. by rewrite app_nil_r. Qed.

Lemma quiet_decDepth : quiet decDepth.
Proof. intros d d' [= <-]. split_and!; auto. exists []. simpl. by rewrite app_nil_r. Qed.

Lemma quiet_seq a b : quiet a -> quiet b -> quiet (a ;; b).
Proof.
  intros Ha Hb d d' E. apply andThen_Ok in E as (d1 & E1 & E2).
  eapply onlyNodesAdded_trans; [by apply Ha|by apply Hb].
Qed.

Lemma quiet_withState f : (forall d0, quiet (f d0)) -> quiet (withState f).
Proof. intros H d d' E. by apply (H d). Qed.

Lemma quiet_forEach {A} (body : A -> action) l :
  (forall x, quiet (body x)) -> quiet (forEach body l).
Proof.
  intros H. induction l as [|x l IH]; simpl; [apply quiet_skip|].
  by apply quiet_seq.
Qed.

Lemma walkPtrLoop_quiet h fuel :
  forall ve d ve' nf cf d',
    walkPtrLoop h fuel ve d = Ok (ve', nf, cf, d') -> onlyNodesAdded d d'.
Proof.
  induction fuel as [|fuel IH]; intros ve d ve' nf cf d' E; simpl in E.
  - destruct (bool_decide (Kind ve = reflect.Ptr)); [destruct (IsNil ve)|];
      try discriminate; injection E as <- <- <- <-; apply onlyNodesAdded_refl.
  - destruct (bool_decide (Kind ve = reflect.Ptr));
      [destruct (IsNil ve)|];
      try (injection E as <- <- <- <-; apply onlyNodesAdded_refl).
    destruct (cycleAt d (Pointer ve)) eqn:Hc;
      try (injection E as <- <- <- <-; apply onlyNodesAdded_refl).
    destruct (Type_ ve) as [t|]; [|discriminate].
    assert (F1 : onlyNodesAdded d (addNode (Pointer ve, t) (recordPointer (Pointer ve) d))).
    { eapply onlyNodesAdded_trans; [|apply onlyNodesAdded_addNode].
      split_and!; auto. exists []. simpl. by rewrite app_nil_r. }
    destruct (bool_decide (Kind (Elem h ve) = reflect.Interface)
              && IsNil (Elem h ve)).
    { by injection E as <- <- <- <-. }
    destruct (Type_ _) as [t'|]; [|discriminate].
    apply IH in E.
    eapply onlyNodesAdded_trans; [exact F1|].
    eapply onlyNodesAdded_trans; [apply onlyNodesAdded_addNode|exact E].
Qed.

Lemma quiet_walkPtr h walk fuel v :
  (forall v wp st a, quiet (walk v wp st a)) ->
  quiet (walkPtr h walk fuel v).
Proof.
  intros Hw d d' E. unfold walkPtr in E.
  destruct (walkPtrLoop h fuel v (purgePointers d))
    as [[[[ve' nf] cf] d1]| |] eqn:EL; try discriminate.
  apply walkPtrLoop_quiet in EL.
  assert (F : onlyNodesAdded d d1).
  { eapply onlyNodesAdded_trans; [|exact EL].
    split_and!; auto. exists []. simpl. by rewrite app_nil_r. }
  destruct (negb nf && negb cf).
  - eapply onlyNodesAdded_trans; [exact F|]. by eapply Hw.
  - by injection E as <-.
Qed.

Lemma quiet_walk h fuel : forall v wp st a, quiet (walk h fuel v wp st a).
Proof.
  induction fuel as [|fuel IH]; intros v wp st a; simpl.
  - intros d d' E. discriminate.
  - pose proof (quiet_walkPtr h (walk h fuel) fuel v IH) as HP.
    assert (HU : forall x, quiet (walkUnpacked h (walk h fuel) x)).
    { intros x. unfold walkUnpacked.
      destruct (unpackValue h x) as [[x' wp'] st']. apply IH. }
    unfold walkSlice.
    repeat match goal with
    | |- quiet skip => apply quiet_skip
    | |- quiet incDepth => apply quiet_incDepth
    | |- quiet decDepth => apply quiet_decDepth
    | |- quiet (_ ;; _) => apply quiet_seq
    | |- quiet (withState _) => apply quiet_withState; intros ?
    | |- quiet (forEach _ _) => apply quiet_forEach; intros ?
    | |- quiet (if ?b then _ else _) => destruct b
    | |- quiet (match ?x with _ => _ end) => destruct x
    | |- quiet _ => first [assumption | apply HU]
    end.
Qed.

(** X8. walk writes nothing and leaves the two flags alone; the nodes it
    started with are still there, in their order, followed by the ones it
    found. *)
Theorem walk_writes_nothing h fuel v wp st a d d' :
  walk h fuel v wp st a d = Ok d' ->
  w d' = w d /\ ignoreNextType d' = ignoreNextType d
  /\ ignoreNextIndent d' = ignoreNextIndent d
  /\ exists l, nodes d' = nodes d ++ l.
Proof. apply quiet_walk. Qed.

Lemma walk_writes_nothing_witness :
  exists d',
    walk demoHeap 9 sharedInt false false 0 insideState = Ok d'
    /\ w d' = w insideState
    /\ ignoreNextType d' = ignoreNextType insideState
    /\ ignoreNextIndent d' = ignoreNextIndent insideState
    /\ exists l, nodes d' = nodes insideState ++ l.
Proof.
  eexists. split.
  - vm_compute. reflexivity.
  - apply (walk_writes_nothing demoHeap 9 sharedInt false false 0 insideState).
    vm_compute. reflexivity.
Defined.

(** X9. When walk returns from a pointer that is not nil and is not taken
    for an ancestor, the nodes hold the address with the type of the
    pointer and, if the pointer leads to something that is not an
    interface, with the type of that. *)
Theorem walk_records_pointers h fuel t a wp st addr d d' :
  walk h fuel (VPtr t (Some a)) wp st addr d = Ok d' ->
  cycleAt d a = false ->
  (a, t) ∈ nodes d'
  /\ forall t', Kind (h a) <> reflect.Interface -> Type_ (h a) = Some t' ->
                (a, t') ∈ nodes d'.
Proof.
  intros E Hc. destruct fuel as [|fuel]; [discriminate|]. simpl in E.
  unfold walkPtr in E.
  destruct (walkPtrLoop h fuel (VPtr t (Some a)) (purgePointers d))
    as [[[[ve' nf] cf] d1]| |] eqn:EL; try discriminate.
  assert (H1 : (a, t) ∈ nodes d1
               /\ forall t', Kind (h a) <> reflect.Interface ->
                             Type_ (h a) = Some t' -> (a, t') ∈ nodes d1).
  { destruct fuel as [|fuel]; [discriminate|]. simpl in EL.
    rewrite cycleAt_purge in EL. rewrite Hc in EL.
    set (d0 := addNode (a, t) (recordPointer a (purgePointers d))) in *.
    assert (H0 : (a, t) ∈ nodes d0) by apply addNode_elem.
    destruct (bool_decide (Kind (h a) = reflect.Interface)) eqn:Hi.
    - apply bool_decide_eq_true in Hi.
      assert ((a, t) ∈ nodes d1); [|by split].
      simpl in EL. destruct (IsNil (h a)).
      { by injection EL as <- <- <- <-. }
      destruct (Type_ _) as [t'|]; [|discriminate].
      apply walkPtrLoop_quiet in EL as (_ & _ & _ & l & N).
      rewrite N. apply elem_of_app. left.
      destruct (onlyNodesAdded_addNode (a, t') d0) as (_ & _ & _ & l' & N').
      rewrite N'. apply elem_of_app. by left.
    - simpl in EL. destruct (Type_ (h a)) as [t0|] eqn:Ht; [|discriminate].
      apply walkPtrLoop_quiet in EL as (_ & _ & _ & l & N).
      rewrite N. split.
      + apply elem_of_app. left.
        destruct (onlyNodesAdded_addNode (a, t0) d0) as (_ & _ & _ & l' & N').
        rewrite N'. apply elem_of_app. by left.
      + intros t' _ [= <-]. apply elem_of_app. left. apply addNode_elem. }
  assert (H2 : exists l, nodes d' = nodes d1 ++ l).
  { destruct (negb nf && negb cf).
    - by apply quiet_walk in E as (_ & _ & _ & H2).
    - injection E as <-. exists []. by rewrite app_nil_r. }
  destruct H2 as (l & ->). destruct H1 as [H1 H1'].
  split; [|intros t' Hk Ht]; apply elem_of_app; left; auto.
Qed.

Lemma walk_records_pointers_witness :
  exists d',
    walk demoHeap 9 (VPtr ptrToInt (Some 32)) false false 0 insideState
    = Ok d'
    /\ (32, ptrToInt) ∈ nodes d'
    /\ forall t', Kind (demoHeap 32) <> reflect.Interface ->
                  Type_ (demoHeap 32) = Some t' -> (32, t') ∈ nodes d'.
Proof.
  eexists. split.
  - vm_compute. reflexivity.
  - apply (walk_records_pointers demoHeap 9 ptrToInt 32 false false 0
                                 insideState).
    + vm_compute. reflexivity.
    + reflexivity.
Defined.

(** ** What the writer holds is not read *)

Lemma uniform_skip : uniform skip.
Proof. done. Qed.

Lemma uniform_panic msg : uniform (panic msg).
Proof. done. Qed.

Lemma uniform_write b : uniform (write b).
Proof. intros p d. unfold write, prependW. simpl. by rewrite app_assoc. Qed.

Lemma uniform_setIgnoreNextType b : uniform (setIgnoreNextType b).
Proof. done. Qed.

Lemma uniform_setIgnoreNextIndent b : uniform (setIgnoreNextIndent b).
Proof. done. Qed.

Lemma uniform_incDepth : uniform incDepth.
Proof. done. Qed.

Lemma uniform_decDepth : uniform decDepth.
Proof. done. Qed.

Lemma uniform_seq a b : uniform a -> uniform b -> uniform (a ;; b).
Proof.
  intros Ha Hb p d. unfold andThen. rewrite Ha.
  destruct (a d) as [d1| |]; simpl; auto.
Qed.

Lemma uniform_withState f :
  (forall p d0, f (prependW p d0) = f d0) ->
  (forall d0, uniform (f d0)) -> uniform (withState f).
Proof. intros H1 H2 p d. unfold withState. rewrite H1. apply H2. Qed.

Lemma uniform_writeAll bs : uniform (writeAll bs).
Proof.
  induction bs as [|b bs IH]; simpl; [apply uniform_skip|].
  apply uniform_seq; [apply uniform_write|done].
Qed.

Lemma uniform_forEach {A} (body : A -> action) l :
  (forall x, uniform (body x)) -> uniform (forEach body l).
Proof.
  intros H. induction l as [|x l IH]; simpl; [apply uniform_skip|].
  by apply uniform_seq.
Qed.

Ltac uniform_step :=
  match goal with
  | |- uniform skip => apply uniform_skip
  | |- uniform (panic _) => apply uniform_panic
  | |- uniform (write _) => apply uniform_write
  | |- uniform (writeAll _) => apply uniform_writeAll
  | |- uniform (setIgnoreNextType _) => apply uniform_setIgnoreNextType
  | |- uniform (setIgnoreNextIndent _) => apply uniform_setIgnoreNextIndent
  | |- uniform incDepth => apply uniform_incDepth
  | |- uniform decDepth => apply uniform_decDepth
  | |- uniform (_ ;; _) => apply uniform_seq
  | |- uniform (withState _) =>
      apply uniform_withState; [intros ? ?; reflexivity | intros ?]
  | |- uniform (forEach _ _) => apply uniform_forEach; intros ?
  | H : forall v wp st, uniform (?f v wp st) |- uniform (?f _ _ _) => apply H
  | |- uniform (if ?b then _ else _) => destruct b
  | |- uniform (match ?x with _ => _ end) => destruct x
  | |- uniform _ => assumption
  end.

Lemma uniform_indent : uniform indent.
Proof. unfold indent. repeat uniform_step. Qed.

Lemma dumpPtrLoop_prependW h p fuel :
  forall ve i pc d,
    dumpPtrLoop h fuel ve i pc (prependW p d)
    = outcomeMap (fun r => (fst r, prependW p (snd r)))
                 (dumpPtrLoop h fuel ve i pc d).
Proof.
  induction fuel as [|fuel IH]; intros ve i pc d; simpl.
  - destruct (bool_decide (Kind ve = reflect.Ptr)); [destruct (IsNil ve)|]; done.
  - destruct (bool_decide (Kind ve = reflect.Ptr)); [destruct (IsNil ve)|];
      try done.
    change (cycleAt (prependW p d) (Pointer ve)) with (cycleAt d (Pointer ve)).
    destruct (cycleAt d (Pointer ve)); [done|].
    change (recordPointer (Pointer ve) (prependW p d))
      with (prependW p (recordPointer (Pointer ve) d)).
    destruct (bool_decide (Kind (Elem h ve) = reflect.Interface));
      [destruct (IsNil (Elem h ve)); [done|]|]; apply IH.
Qed.

Section Uniform.
Variable env : Common.
Variable h : Heap.

Lemma uniform_writePtrType c : uniform (writePtrType c).
Proof. unfold writePtrType. repeat uniform_step. Qed.

Lemma uniform_writePointerChain i l : uniform (writePointerChain env i l).
Proof.
  revert i. induction l as [|a l IH]; intros i; simpl; repeat uniform_step.
  apply IH.
Qed.

Lemma uniform_writePtrComment c : uniform (writePtrComment env c).
Proof.
  unfold writePtrComment. pose proof uniform_writePointerChain.
  repeat uniform_step. apply H.
Qed.

Lemma uniform_dumpPtr dump fuel v :
  (forall x wp st, uniform (dump x wp st)) ->
  uniform (dumpPtr env h dump fuel v).
Proof.
  intros Hd p d. unfold dumpPtr.
  change (purgePointers (prependW p d)) with (prependW p (purgePointers d)).
  rewrite dumpPtrLoop_prependW.
  destruct (dumpPtrLoop h fuel v 0 [] (purgePointers d)) as [[c d1]| |];
    simpl; [|done|done].
  pose proof (uniform_writePtrType c). pose proof (uniform_writePtrComment c).
  revert p d1. change (uniform (writePtrType c;; writePtrComment env c;;
     (if nilFound c
      then write openParenBytes;; write nilBytes;; write closeParenBytes
      else if cycleFound c then write (circularBytes env)
           else setIgnoreNextType true;; dump (ve c) true false))).
  repeat uniform_step.
Qed.

Lemma uniform_dumpSlice dump v :
  (forall x wp st, uniform (dump x wp st)) ->
  uniform (dumpSlice env h dump v).
Proof.
  intros Hd. unfold dumpSlice.
  destruct (hexBuffer env v) as [[buf|]|msg|]; [| | |done].
  - repeat uniform_step.
  - apply uniform_forEach. intros x.
    destruct (unpackValue h x) as [[x' wp] st]. repeat uniform_step.
  - apply uniform_panic.
Qed.

Lemma uniform_dumpKind dump v wantType :
  (forall x wp st, uniform (dump x wp st)) ->
  uniform (dumpKind env h dump v wantType).
Proof.
  intros Hd. pose proof uniform_indent as Hi.
  pose proof (uniform_dumpSlice dump) as Hs.
  assert (HU : forall x, uniform
    (let '(x', wasPtr, static) := unpackValue h x in dump x' wasPtr static)).
  { intros x. destruct (unpackValue h x) as [[x' wp] st]. apply Hd. }
  destruct v as [| | | | | |t k re im| | |t e|t [es|]|t es|t [kvs|]|t fs| |];
    simpl; try destruct k; repeat uniform_step; auto.
  all: try apply HU.
Qed.

Lemma uniform_dump fuel :
  forall v wp st, uniform (dump env h fuel v wp st).
Proof.
  induction fuel as [|fuel IH]; intros v wp st; simpl; [done|].
  pose proof uniform_indent as Hi.
  pose proof (uniform_dumpPtr (dump env h fuel) fuel v IH) as Hp.
  pose proof (fun W => uniform_dumpKind (dump env h fuel) v W IH) as Hk.
  destruct (bool_decide (Kind v = reflect.Invalid)); [apply uniform_write|].
  destruct (bool_decide (Kind v = reflect.Ptr)); [by apply uniform_seq|].
  destruct (Type_ v) as [typ|]; [|apply uniform_panic].
  repeat uniform_step; auto.
Qed.

End Uniform.

(** X10. Fdump appends to its writer what it appends to an empty one,
    whatever the writer holds; Dump does so to standard output; and Sdump
    returns that text as one string.  If one of them panics or does not
    return, all do. *)
Theorem same_format_for_every_writer env h Config fuel wr a :
  Fdump env h Config fuel wr a
  = outcomeMap (app wr) (Fdump env h Config fuel [] a)
  /\ Dump env h Config fuel wr a
     = outcomeMap (app wr) (Fdump env h Config fuel [] a)
  /\ Sdump env h Config fuel a
     = outcomeMap (String.concat "") (Fdump env h Config fuel [] a).
Proof.
  assert (H : Fdump env h Config fuel wr a
              = outcomeMap (app wr) (Fdump env h Config fuel [] a)).
  { unfold Fdump, fdump. destruct a as [v|]; [|done].
    pose proof (uniform_seq _ _ (uniform_dump env h fuel v false false)
                  (uniform_write newlineBytes) wr
                  (mkState [] 0 ∅ false false Config [])) as U.
    unfold prependW in U. simpl in U. rewrite app_nil_r in U. rewrite U.
    clear U.
    destruct ((dump env h fuel v false false;; write newlineBytes) _);
      simpl; done. }
  split_and!; [exact H|exact H|].
  unfold Sdump, Fdump. by destruct (fdump env h fuel Config [] a).
Qed.

(** ** Data without cycles *)

Lemma forallb_impl {A} (f g : A -> bool) l :
  (forall x, f x = true -> g x = true) ->
  forallb f l = true -> forallb g l = true.
Proof.
  intros H. rewrite !forallb_forall. auto.
Qed.

Lemma unfoldsWithin_eq h n v :
  unfoldsWithin h (S n) v
  = match v with
    | VPtr _ (Some a) => unfoldsWithin h n (h a)
    | VInterface _ (Some e) => unfoldsWithin h n e
    | VSlice _ (Some es) | VArray _ es => forallb (unfoldsWithin h n) es
    | VMap _ (Some kvs) =>
        forallb (fun kv => unfoldsWithin h n (fst kv)
                           && unfoldsWithin h n (snd kv)) kvs
    | VStruct _ fs => forallb (fun f => unfoldsWithin h n (snd f)) fs
    | _ => true
    end.
Proof. reflexivity. Qed.

Lemma unfoldsWithin_S h n : forall v,
  unfoldsWithin h n v = true -> unfoldsWithin h (S n) v = true.
Proof.
  induction n as [|n IH]; intros v H; [discriminate|].
  rewrite unfoldsWithin_eq in H. rewrite unfoldsWithin_eq.
  destruct v as [| | | | | | | |t [a|]|t [e|]|t [es|]|t es|t [kvs|]|t fs| |];
    auto.
  - revert H. apply forallb_impl. auto.
  - revert H. apply forallb_impl. auto.
  - revert H. apply forallb_impl. intros kv Hkv.
    apply andb_prop in Hkv as [H1 H2]. by rewrite (IH _ H1), (IH _ H2).
  - revert H. apply forallb_impl. auto.
Qed.

Lemma unfoldsWithin_le h n m v :
  (n <= m)%nat -> unfoldsWithin h n v = true -> unfoldsWithin h m v = true.
Proof.
  induction 1 as [|m Hle IH]; [done|]. intros H. by apply unfoldsWithin_S, IH.
Qed.

Lemma unfoldsWithin_unpack h n x :
  unfoldsWithin h n x = true ->
  unfoldsWithin h n (fst (fst (unpackValue h x))) = true.
Proof.
  intros H. unfold unpackValue.
  destruct (bool_decide (Kind x = reflect.Interface)) eqn:Hk; simpl; [|done].
  apply bool_decide_eq_true, Kind_Interface in Hk as (t & [e|] & ->); simpl;
    [|done].
  destruct n as [|n]; [discriminate|]. rewrite unfoldsWithin_eq in H.
  by apply unfoldsWithin_S.
Qed.

Lemma MapIndex_unfoldsWithin h n kvs key :
  forallb (fun kv => unfoldsWithin h n (fst kv) && unfoldsWithin h n (snd kv))
          kvs = true ->
  key ∈ MapKeys kvs ->
  unfoldsWithin h n (MapIndex kvs key) = true.
Proof.
  intros H Hin. unfold MapIndex.
  destruct (find _ kvs) as [kv|] eqn:E.
  - apply find_some in E as [Hkv _]. rewrite forallb_forall in H.
    apply H in Hkv. by apply andb_prop in Hkv as [_ ?].
  - unfold MapKeys in Hin. apply list_elem_of_fmap in Hin as (kv & -> & Hkv).
    apply list_elem_of_In in Hkv.
    pose proof (find_none _ _ E kv Hkv) as Hn. simpl in Hn.
    by rewrite bool_decide_eq_false in Hn.
Qed.

Lemma halts_skip : halts skip.
Proof. done. Qed.

Lemma halts_panic msg : halts (panic msg).
Proof. done. Qed.

Lemma halts_write b : halts (write b).
Proof. done. Qed.

Lemma halts_setIgnoreNextType b : halts (setIgnoreNextType b).
Proof. done. Qed.

Lemma halts_setIgnoreNextIndent b : halts (setIgnoreNextIndent b).
Proof. done. Qed.

Lemma halts_incDepth : halts incDepth.
Proof. done. Qed.

Lemma halts_decDepth : halts decDepth.
Proof. done. Qed.

Lemma halts_seq a b : halts a -> halts b -> halts (a ;; b).
Proof.
  intros Ha Hb d. unfold andThen. specialize (Ha d).
  destruct (a d); [apply Hb|done|done].
Qed.

Lemma halts_withState f : (forall d0, halts (f d0)) -> halts (withState f).
Proof. intros H d. apply H. Qed.

Lemma halts_writeAll bs : halts (writeAll bs).
Proof.
  induction bs as [|b bs IH]; simpl; [done|].
  by apply halts_seq.
Qed.

Lemma halts_forEach {A} (body : A -> action) l :
  (forall x, x ∈ l -> halts (body x)) -> halts (forEach body l).
Proof.
  induction l as [|x l IH]; intros H; simpl; [done|].
  apply halts_seq; [apply H; by left|]. apply IH. intros y Hy. apply H. by right.
Qed.

Ltac halts_step :=
  match goal with
  | |- halts skip => apply halts_skip
  | |- halts (panic _) => apply halts_panic
  | |- halts (write _) => apply halts_write
  | |- halts (writeAll _) => apply halts_writeAll
  | |- halts (setIgnoreNextType _) => apply halts_setIgnoreNextType
  | |- halts (setIgnoreNextIndent _) => apply halts_setIgnoreNextIndent
  | |- halts incDepth => apply halts_incDepth
  | |- halts decDepth => apply halts_decDepth
  | |- halts (_ ;; _) => apply halts_seq
  | |- halts (withState _) => apply halts_withState; intros ?
  | |- halts (if ?b then _ else _) => destruct b
  | |- halts (match ?x with _ => _ end) => destruct x
  | |- halts _ => assumption
  end.

Lemma halts_indent : halts indent.
Proof. unfold indent. repeat halts_step. Qed.

Lemma hexBuffer_halts env v : hexBuffer env v <> OutOfFuel.
Proof.
  unfold hexBuffer, convertAll.
  repeat match goal with
  | |- context [match ?x with _ => _ end] => destruct x
  end; done.
Qed.

Lemma dumpPtrLoop_halts h fuel :
  forall n v0 i pc d,
    unfoldsWithin h (S n) v0 = true -> (n <= fuel)%nat ->
    exists c d', dumpPtrLoop h fuel v0 i pc d = Ok (c, d')
      /\ (nilFound c = false -> cycleFound c = false ->
          unfoldsWithin h (S n) (ve c) = true
          /\ (Kind v0 = reflect.Ptr -> unfoldsWithin h n (ve c) = true)).
Proof.
  induction fuel as [|fuel IH]; intros n v0 i pc d Hu Hle.
  - assert (n = 0%nat) as -> by lia. simpl.
    destruct (bool_decide (Kind v0 = reflect.Ptr)) eqn:Hk.
    + apply bool_decide_eq_true, Kind_Ptr in Hk as (t & [a|] & ->);
        [discriminate|]. simpl. eexists _, _. split; [done|]. done.
    + eexists _, _. split; [done|]. simpl. intros _ _. split; [done|].
      intros Hp. by apply bool_decide_eq_false in Hk.
  - simpl. destruct (bool_decide (Kind v0 = reflect.Ptr)) eqn:Hk.
    + apply bool_decide_eq_true, Kind_Ptr in Hk as (t & [a|] & ->); simpl;
        [|eexists _, _; split; done].
      destruct (cycleAt d a); [eexists _, _; split; done|].
      rewrite unfoldsWithin_eq in Hu. destruct n as [|n]; [discriminate|].
      set (pc' := if CommentPointers (cs d) then pc ++ [a] else pc).
      destruct (bool_decide (Kind (h a) = reflect.Interface)) eqn:Hi.
      * apply bool_decide_eq_true, Kind_Interface in Hi as (t' & [e|] & He);
          rewrite He in *; simpl; [|eexists _, _; split; done].
        rewrite unfoldsWithin_eq in Hu. destruct n as [|n]; [discriminate|].
        destruct (IH n e (i + 1) pc' (recordPointer a d)) as (c & d' & E & H);
          [done|lia|].
        exists c, d'. split; [done|]. intros Hn Hc.
        destruct (H Hn Hc) as [H1 _].
        split; [|intros _]; (eapply unfoldsWithin_le; [|exact H1]); lia.
      * destruct (IH n (h a) (i + 1) pc' (recordPointer a d)) as (c & d' & E & H);
          [done|lia|].
        exists c, d'. split; [done|]. intros Hn Hc.
        destruct (H Hn Hc) as [H1 _].
        split; [|intros _]; (eapply unfoldsWithin_le; [|exact H1]); lia.
    + eexists _, _. split; [done|]. simpl. intros _ _. split; [done|].
      intros Hp. by apply bool_decide_eq_false in Hk.
Qed.

Section Halts.
Variable env : Common.
Variable h : Heap.

Lemma halts_writePtrType c : halts (writePtrType c).
Proof. unfold writePtrType. repeat halts_step. Qed.

Lemma halts_writePointerChain i l : halts (writePointerChain env i l).
Proof.
  revert i. induction l as [|a l IH]; intros i; simpl; repeat halts_step.
  apply IH.
Qed.

Lemma halts_writePtrComment c : halts (writePtrComment env c).
Proof.
  unfold writePtrComment. pose proof halts_writePointerChain.
  repeat halts_step. apply H.
Qed.

Lemma halts_dumpPtr dump fuel n v :
  (forall x wp st, unfoldsWithin h n x = true -> halts (dump x wp st)) ->
  Kind v = reflect.Ptr ->
  unfoldsWithin h (S n) v = true -> (n <= fuel)%nat ->
  halts (dumpPtr env h dump fuel v).
Proof.
  intros Hd Hk Hu Hle d. unfold dumpPtr.
  destruct (dumpPtrLoop_halts h fuel n v 0 [] (purgePointers d) Hu Hle)
    as (c & d1 & -> & H).
  pose proof (halts_writePtrType c). pose proof (halts_writePtrComment c).
  apply halts_seq; [done|]. apply halts_seq; [done|].
  destruct (nilFound c); [repeat halts_step|].
  destruct (cycleFound c); [repeat halts_step|].
  apply halts_seq; [apply halts_setIgnoreNextType|].
  apply Hd. by apply H.
Qed.

Lemma halts_dumpUnpacked dump n x :
  (forall x wp st, unfoldsWithin h n x = true -> halts (dump x wp st)) ->
  unfoldsWithin h n x = true ->
  halts (let '(x', wasPtr, static) := unpackValue h x in dump x' wasPtr static).
Proof.
  intros Hd Hx. pose proof (unfoldsWithin_unpack h n x Hx) as H.
  destruct (unpackValue h x) as [[x' wp] st]. simpl in H. by apply Hd.
Qed.

Lemma halts_dumpSlice dump n v :
  (forall x wp st, unfoldsWithin h n x = true -> halts (dump x wp st)) ->
  forallb (unfoldsWithin h n) (elems v) = true ->
  halts (dumpSlice env h dump v).
Proof.
  intros Hd Hu. unfold dumpSlice.
  pose proof (hexBuffer_halts env v) as Hb.
  destruct (hexBuffer env v) as [[buf|]|msg|]; [| | |done].
  - repeat halts_step.
  - apply halts_forEach. intros x Hx.
    assert (Hux : unfoldsWithin h n x = true).
    { rewrite forallb_forall in Hu. by apply Hu, list_elem_of_In. }
    pose proof (halts_dumpUnpacked dump n x Hd Hux).
    destruct (unpackValue h x) as [[x' wp] st]. repeat halts_step.
  - apply halts_panic.
Qed.

Lemma halts_dumpKind dump n v wantType :
  (forall x wp st, unfoldsWithin h n x = true -> halts (dump x wp st)) ->
  unfoldsWithin h (S n) v = true ->
  halts (dumpKind env h dump v wantType).
Proof.
  intros Hd Hu. pose proof halts_indent as Hi.
  destruct v as [| | | | | |t k re im| | |t e|t [es|]|t es|t [kvs|]|t fs| |];
    simpl; try (try destruct k; repeat halts_step; fail).
  - pose proof (halts_dumpSlice dump n (VSlice t (Some es)) Hd Hu).
    repeat halts_step.
  - pose proof (halts_dumpSlice dump n (VArray t es) Hd Hu).
    repeat halts_step.
  - rewrite unfoldsWithin_eq in Hu. repeat halts_step.
    apply halts_forEach. intros key Hin.
    assert (Hin' : key ∈ MapKeys kvs).
    { destruct (SortKeys (cs d0)); [|done].
      by rewrite sortValues_Permutation in Hin. }
    assert (Hkey : unfoldsWithin h n key = true).
    { unfold MapKeys in Hin'.
      apply list_elem_of_fmap in Hin' as (kv & -> & Hkv).
      rewrite forallb_forall in Hu. apply list_elem_of_In, Hu in Hkv.
      by apply andb_prop in Hkv as [? _]. }
    pose proof (halts_dumpUnpacked dump n key Hd Hkey).
    pose proof (halts_dumpUnpacked dump n (MapIndex kvs key) Hd
                  (MapIndex_unfoldsWithin h n kvs key Hu Hin')).
    repeat halts_step.
  - rewrite unfoldsWithin_eq in Hu. repeat halts_step.
    apply halts_forEach. intros f Hin. apply halts_withState. intros d0.
    assert (Hf : unfoldsWithin h n (snd f) = true).
    { rewrite forallb_forall in Hu. by apply list_elem_of_In, Hu in Hin. }
    pose proof (halts_dumpUnpacked dump n (snd f) Hd Hf).
    repeat halts_step.
Qed.

Lemma halts_dump fuel :
  forall n v wp st,
    unfoldsWithin h n v = true -> (n <= fuel)%nat ->
    halts (dump env h fuel v wp st).
Proof.
  induction fuel as [|fuel IH]; intros n v wp st Hu Hle.
  - assert (n = 0%nat) as -> by lia. discriminate.
  - destruct n as [|n]; [discriminate|]. simpl.
    assert (Hd : forall x wp st, unfoldsWithin h n x = true ->
                                 halts (dump env h fuel x wp st)).
    { intros x wp' st' Hx. apply (IH n); [done|lia]. }
    pose proof halts_indent as Hi.
    destruct (bool_decide (Kind v = reflect.Invalid)); [apply halts_write|].
    destruct (bool_decide (Kind v = reflect.Ptr)) eqn:Hp.
    + apply bool_decide_eq_true in Hp.
      apply halts_seq; [done|]. apply (halts_dumpPtr _ _ n); auto. lia.
    + pose proof (fun W => halts_dumpKind (dump env h fuel) n v W Hd Hu) as Hk.
      destruct (Type_ v) as [typ|]; [|apply halts_panic].
      repeat halts_step; auto.
Qed.

End Halts.

(** X11. dump returns from every well-formed value from which no pointer
    leads back to something it was reached from: when what the value
    reaches unfolds to fewer than [n] levels, [n] units of fuel suffice, and
    the call neither panics nor runs on. *)
Theorem acyclic_data_is_dumped env h n fuel v wp st d :
  wfHeap h -> wfValue v = true ->
  unfoldsWithin h n v = true -> (n <= fuel)%nat -> 0 <= depth d ->
  exists d', dump env h fuel v wp st d = Ok d'.
Proof.
  intros Hh Hw Hu Hle Hd.
  pose proof (halts_dump env h fuel n v wp st Hu Hle d) as H1.
  pose proof (safe_dump env h Hh fuel v wp st (or_introl Hw) d Hd) as H2.
  destruct (dump env h fuel v wp st d) as [d'|msg|]; [by exists d'| |done].
  by destruct (H2 msg).
Qed.

Lemma acyclic_data_is_dumped_witness :
  exists d',
    dump plainCommon demoHeap 9 sharedInt false false insideState = Ok d'.
Proof.
  apply (acyclic_data_is_dumped plainCommon demoHeap 4 9 sharedInt false false
                                insideState).
  - exact demoHeap_wf.
  - reflexivity.
  - reflexivity.
  - lia.
  - simpl. lia.
Defined.

(** ** walk on data without cycles *)

Lemma returns_skip : returns skip.
Proof. intros d. by exists d. Qed.

Lemma returns_incDepth : returns incDepth.
Proof. intros d. by eexists. Qed.

Lemma returns_decDepth : returns decDepth.
Proof. intros d. by eexists. Qed.

Lemma returns_seq a b : returns a -> returns b -> returns (a ;; b).
Proof.
  intros Ha Hb d. unfold andThen. destruct (Ha d) as [d1 ->]. apply Hb.
Qed.

Lemma returns_withState f : (forall d0, returns (f d0)) -> returns (withState f).
Proof. intros H d. apply H. Qed.

Lemma returns_forEach {A} (body : A -> action) l :
  (forall x, x ∈ l -> returns (body x)) -> returns (forEach body l).
Proof.
  induction l as [|x l IH]; intros H; simpl; [apply returns_skip|].
  apply returns_seq; [apply H; by left|]. apply IH. intros y Hy. apply H. by right.
Qed.

Lemma walkPtrLoop_returns h (Hh : wfHeap h) fuel :
  forall n v0 d,
    wfValue v0 = true ->
    unfoldsWithin h (S n) v0 = true -> (n <= fuel)%nat ->
    exists ve' nf cf d', walkPtrLoop h fuel v0 d = Ok (ve', nf, cf, d')
      /\ (nf = false -> cf = false ->
          wfValue ve' = true
          /\ unfoldsWithin h (S n) ve' = true
          /\ (Kind v0 = reflect.Ptr -> unfoldsWithin h n ve' = true)).
Proof.
  induction fuel as [|fuel IH]; intros n v0 d Hw Hu Hle.
  - assert (n = 0%nat) as -> by lia. simpl.
    destruct (bool_decide (Kind v0 = reflect.Ptr)) eqn:Hk.
    + apply bool_decide_eq_true, Kind_Ptr in Hk as (t & [a|] & ->);
        [discriminate|]. simpl. eexists _, _, _, _. split; [done|]. done.
    + eexists _, _, _, _. split; [done|]. intros _ _. split_and!; [done|done|].
      intros Hp. by apply bool_decide_eq_false in Hk.
  - simpl. destruct (bool_decide (Kind v0 = reflect.Ptr)) eqn:Hk.
    + apply bool_decide_eq_true, Kind_Ptr in Hk as (t & [a|] & ->); simpl;
        [|eexists _, _, _, _; split; done].
      destruct (cycleAt d a); [eexists _, _, _, _; split; done|].
      rewrite unfoldsWithin_eq in Hu. destruct n as [|n]; [discriminate|].
      set (d0 := addNode (a, t) (recordPointer a d)).
      pose proof (Hh a) as Hwa.
      destruct (bool_decide (Kind (h a) = reflect.Interface)) eqn:Hi.
      * apply bool_decide_eq_true, Kind_Interface in Hi as (t' & [e|] & He);
          rewrite He in *; simpl; [|eexists _, _, _, _; split; done].
        rewrite unfoldsWithin_eq in Hu. destruct n as [|n]; [discriminate|].
        simpl in Hwa. apply andb_prop in Hwa as [_ Hwe].
        destruct (wfValue_Type _ Hwe) as (te & -> & _).
        destruct (IH n e (addNode (a, te) d0)) as (ve' & nf & cf & d' & E & H);
          [done|done|lia|].
        exists ve', nf, cf, d'. split; [done|]. intros Hn Hc.
        destruct (H Hn Hc) as (H1 & H2 & _).
        split_and!; [done| |intros _]; (eapply unfoldsWithin_le; [|exact H2]); lia.
      * simpl. destruct (wfValue_Type _ Hwa) as (te & -> & _).
        destruct (IH n (h a) (addNode (a, te) d0)) as (ve' & nf & cf & d' & E & H);
          [done|done|lia|].
        exists ve', nf, cf, d'. split; [done|]. intros Hn Hc.
        destruct (H Hn Hc) as (H1 & H2 & _).
        split_and!; [done| |intros _]; (eapply unfoldsWithin_le; [|exact H2]); lia.
    + eexists _, _, _, _. split; [done|]. intros _ _. split_and!; [done|done|].
      intros Hp. by apply bool_decide_eq_false in Hk.
Qed.

Lemma returns_walkPtr h (Hh : wfHeap h) walk fuel n v :
  (forall x wp st a, wfValue x = true -> unfoldsWithin h n x = true ->
                     returns (walk x wp st a)) ->
  Kind v = reflect.Ptr -> wfValue v = true ->
  unfoldsWithin h (S n) v = true -> (n <= fuel)%nat ->
  returns (walkPtr h walk fuel v).
Proof.
  intros Hwk Hk Hw Hu Hle d. unfold walkPtr.
  destruct (walkPtrLoop_returns h Hh fuel n v (purgePointers d) Hw Hu Hle)
    as (ve' & nf & cf & d1 & -> & H).
  destruct nf; simpl; [by eexists|]. destruct cf; simpl; [by eexists|].
  destruct H as (H1 & _ & H2); [done|done|]. apply Hwk; auto.
Qed.

Lemma returns_walkUnpacked h walk n x :
  (forall x wp st a, dumpable x -> unfoldsWithin h n x = true ->
                     returns (walk x wp st a)) ->
  dumpable x -> unfoldsWithin h n x = true ->
  returns (walkUnpacked h walk x).
Proof.
  intros Hwk Hx Hu. unfold walkUnpacked.
  pose proof (dumpable_unpack h x Hx) as H1.
  pose proof (unfoldsWithin_unpack h n x Hu) as H2.
  destruct (unpackValue h x) as [[x' wp] st]. simpl in *. by apply Hwk.
Qed.

Lemma returns_walk h (Hh : wfHeap h) fuel :
  forall n v wp st a,
    dumpable v -> unfoldsWithin h n v = true -> (n <= fuel)%nat ->
    returns (walk h fuel v wp st a).
Proof.
  induction fuel as [|fuel IH]; intros n v wp st a Hv Hu Hle.
  - assert (n = 0%nat) as -> by lia. discriminate.
  - destruct n as [|n]; [discriminate|]. simpl.
    assert (Hwk : forall x wp st a, dumpable x -> unfoldsWithin h n x = true ->
                                    returns (walk h fuel x wp st a)).
    { intros x wp' st' a' Hx Hux. apply (IH n); [done|done|lia]. }
    destruct (bool_decide (Kind v = reflect.Invalid)); [apply returns_skip|].
    destruct Hv as [Hw| ->]; [|apply returns_skip].
    destruct (bool_decide (Kind v = reflect.Ptr)) eqn:Hp.
    + apply bool_decide_eq_true in Hp.
      apply (returns_walkPtr h Hh _ _ n); auto; [|lia].
      intros x wp' st' a' Hx Hux. apply Hwk; [by left|done].
    + rewrite unfoldsWithin_eq in Hu.
      destruct v as [| | | | | |t k re im| | |t e|t [es|]|t es|t [kvs|]|t fs| |];
        try apply returns_skip.
      * simpl in Hw. apply andb_prop in Hw as [Hw _].
        apply andb_prop in Hw as [_ Hw]. unfold walkSlice.
        apply returns_seq; [apply returns_incDepth|].
        apply returns_seq; [|apply returns_decDepth].
        apply returns_forEach. intros x Hx. apply list_elem_of_In in Hx.
        rewrite forallb_forall in Hw, Hu.
        apply (returns_walkUnpacked h _ n); auto. left. by apply Hw.
      * simpl in Hw. apply andb_prop in Hw as [Hw _].
        apply andb_prop in Hw as [_ Hw]. unfold walkSlice.
        apply returns_seq; [apply returns_incDepth|].
        apply returns_seq; [|apply returns_decDepth].
        apply returns_forEach. intros x Hx. apply list_elem_of_In in Hx.
        rewrite forallb_forall in Hw, Hu.
        apply (returns_walkUnpacked h _ n); auto. left. by apply Hw.
      * simpl in Hw. apply andb_prop in Hw as [_ Hw].
        apply returns_seq; [apply returns_incDepth|].
        apply returns_seq; [|apply returns_decDepth].
        apply returns_forEach. intros key Hin.
        pose proof (MapIndex_dumpable kvs key Hw) as Hdv.
        pose proof (MapIndex_unfoldsWithin h n kvs key Hu Hin) as Huv.
        unfold MapKeys in Hin.
        apply list_elem_of_fmap in Hin as (kv & -> & Hkv).
        apply list_elem_of_In in Hkv.
        rewrite forallb_forall in Hw, Hu.
        pose proof (Hw _ Hkv) as Hwk'. pose proof (Hu _ Hkv) as Huk.
        apply andb_prop in Hwk' as [Hwk1 _]. apply andb_prop in Huk as [Huk1 _].
        apply returns_seq; apply (returns_walkUnpacked h _ n); auto. by left.
      * simpl in Hw. apply andb_prop in Hw as [_ Hw].
        apply returns_seq; [apply returns_incDepth|].
        apply returns_seq; [|apply returns_decDepth].
        apply returns_forEach. intros f Hin. apply list_elem_of_In in Hin.
        apply returns_withState. intros d0.
        destruct (_ && _); [apply returns_skip|].
        rewrite forallb_forall in Hw, Hu.
        apply (returns_walkUnpacked h _ n); auto. left. by apply Hw.
Qed.

(** X12. walk returns from every well-formed value from which no pointer
    leads back to something it was reached from, from any state: when what
    the value reaches unfolds to fewer than [n] levels, [n] units of fuel
    suffice. *)
Theorem acyclic_data_is_walked h n fuel v wp st a d :
  wfHeap h -> wfValue v = true ->
  unfoldsWithin h n v = true -> (n <= fuel)%nat ->
  exists d', walk h fuel v wp st a d = Ok d'.
Proof.
  intros Hh Hw Hu Hle.
  by apply (returns_walk h Hh fuel n v wp st a (or_introl Hw) Hu Hle d).
Qed.

Lemma acyclic_data_is_walked_witness :
  exists d', walk demoHeap 9 sharedInt false false 0 insideState = Ok d'.
Proof.
  apply (acyclic_data_is_walked demoHeap 4 9 sharedInt false false 0
                                insideState).
  - exact demoHeap_wf.
  - reflexivity.
  - reflexivity.
  - lia.
Defined.

(** ** The one-shot flags *)

Lemma hoare_seq P Q R a b :
  hoare P a Q -> hoare Q b R -> hoare P (a ;; b) R.
Proof.
  intros Ha Hb d d' E HP. apply andThen_Ok in E as (d1 & E1 & E2).
  eapply Hb; [exact E2|]. eapply Ha; eauto.
Qed.

Lemma hoare_withState P Q f :
  (forall d0, P d0 -> hoare (fun d => d = d0) (f d0) Q) ->
  hoare P (withState f) Q.
Proof. intros H d d' E HP. exact (H d HP d d' E eq_refl). Qed.

Lemma hoare_forEach {A} I (body : A -> action) l :
  (forall x, x ∈ l -> hoare I (body x) I) -> hoare I (forEach body l) I.
Proof.
  induction l as [|x l IH]; intros H; simpl.
  - intros d d' [= <-] HI. done.
  - eapply hoare_seq; [apply H; by left|]. apply IH. intros y Hy. apply H.
    by right.
Qed.

Lemma hoare_weaken (P P' Q Q' : dumpState -> Prop) a :
  hoare P' a Q' -> (forall d, P d -> P' d) -> (forall d, Q' d -> Q d) ->
  hoare P a Q.
Proof. intros H HP HQ d d' E Hd. eapply HQ, H; eauto. Qed.

Lemma flagsKept_skip : flagsKept skip.
Proof. by intros d d' [= <-]. Qed.

Lemma flagsKept_panic msg : flagsKept (panic msg).
Proof. intros d d' E. discriminate. Qed.

Lemma flagsKept_write b : flagsKept (write b).
Proof. by intros d d' [= <-]. Qed.

Lemma flagsKept_incDepth : flagsKept incDepth.
Proof. by intros d d' [= <-]. Qed.

Lemma flagsKept_decDepth : flagsKept decDepth.
Proof. by intros d d' [= <-]. Qed.

Lemma flagsKept_seq a b : flagsKept a -> flagsKept b -> flagsKept (a ;; b).
Proof.
  intros Ha Hb d d' E. apply andThen_Ok in E as (d1 & E1 & E2).
  destruct (Ha _ _ E1) as [T1 I1]. destruct (Hb _ _ E2) as [T2 I2].
  split; congruence.
Qed.

Lemma flagsKept_writeAll bs : flagsKept (writeAll bs).
Proof.
  induction bs as [|b bs IH]; simpl; [apply flagsKept_skip|].
  apply flagsKept_seq; [apply flagsKept_write|done].
Qed.

Lemma flagsKept_withState f :
  (forall d0, flagsKept (f d0)) -> flagsKept (withState f).
Proof. intros H d d' E. by apply (H d). Qed.

Ltac flagsKept_step :=
  match goal with
  | |- flagsKept skip => apply flagsKept_skip
  | |- flagsKept (panic _) => apply flagsKept_panic
  | |- flagsKept (write _) => apply flagsKept_write
  | |- flagsKept (writeAll _) => apply flagsKept_writeAll
  | |- flagsKept incDepth => apply flagsKept_incDepth
  | |- flagsKept decDepth => apply flagsKept_decDepth
  | |- flagsKept (_ ;; _) => apply flagsKept_seq
  | |- flagsKept (withState _) => apply flagsKept_withState; intros ?
  | |- flagsKept (if ?b then _ else _) => destruct b
  | |- flagsKept (match ?x with _ => _ end) => destruct x
  | |- flagsKept _ => assumption
  end.

Lemma flagsKept_hoare (P : bool -> bool -> Prop) a :
  flagsKept a ->
  hoare (fun d => P (ignoreNextType d) (ignoreNextIndent d)) a
        (fun d => P (ignoreNextType d) (ignoreNextIndent d)).
Proof. intros H d d' E HP. by destruct (H _ _ E) as [-> ->]. Qed.

Lemma flagsKept_typeShown a : flagsKept a -> hoare typeShown a typeShown.
Proof. apply (flagsKept_hoare (fun t _ => t = false)). Qed.

Lemma flagsKept_flagsClear a : flagsKept a -> hoare flagsClear a flagsClear.
Proof. apply (flagsKept_hoare (fun t i => t = false /\ i = false)). Qed.

Lemma indent_clears : hoare typeShown indent flagsClear.
Proof.
  intros d d' E HP. unfold indent, withState in E. unfold typeShown in HP.
  destruct (ignoreNextIndent d) eqn:Hi.
  - injection E as <-. by split.
  - destruct (bytesRepeat _ _); [|discriminate]. injection E as <-. by split.
Qed.

Lemma indent_typeShown : hoare typeShown indent typeShown.
Proof.
  eapply hoare_weaken; [apply indent_clears|done|]. by intros d [? _].
Qed.

Lemma setIgnoreNextIndent_typeShown b :
  hoare typeShown (setIgnoreNextIndent b) typeShown.
Proof. by intros d d' [= <-]. Qed.

Lemma dumpPtrLoop_flags h fuel :
  forall v0 i pc d c d',
    dumpPtrLoop h fuel v0 i pc d = Ok (c, d') ->
    ignoreNextType d' = ignoreNextType d
    /\ ignoreNextIndent d' = ignoreNextIndent d
    /\ (nilFound c = false -> cycleFound c = false ->
        Kind (ve c) <> reflect.Ptr).
Proof.
  induction fuel as [|fuel IH]; intros v0 i pc d c d' E; simpl in E.
  - destruct (bool_decide (Kind v0 = reflect.Ptr)) eqn:Hk;
      [destruct (IsNil v0)|]; try discriminate; injection E as <- <-;
      split_and!; try done.
    intros _ _. by apply bool_decide_eq_false in Hk.
  - destruct (bool_decide (Kind v0 = reflect.Ptr)) eqn:Hk;
      [destruct (IsNil v0)|].
    + injection E as <- <-. done.
    + destruct (cycleAt d (Pointer v0)); [injection E as <- <-; done|].
      destruct (bool_decide (Kind (Elem h v0) = reflect.Interface));
        [destruct (IsNil (Elem h v0)); [injection E as <- <-; done|]|];
        apply IH in E as (E1 & E2 & E3); done.
    + injection E as <- <-. split_and!; try done.
      intros _ _. by apply bool_decide_eq_false in Hk.
Qed.

Section Flags.
Variable env : Common.
Variable h : Heap.

Lemma flagsKept_writePtrType c : flagsKept (writePtrType c).
Proof. unfold writePtrType. repeat flagsKept_step. Qed.

Lemma writePtrType_valid c d d' :
  writePtrType c d = Ok d' -> Kind (ve c) <> reflect.Invalid.
Proof.
  unfold writePtrType. intros E Hk.
  destruct (bytesRepeat _ _); [|discriminate].
  apply andThen_Ok in E as (d1 & _ & E).
  destruct (ve c); try destruct k; try discriminate.
Qed.

Lemma flagsKept_writePointerChain i l : flagsKept (writePointerChain env i l).
Proof.
  revert i. induction l as [|a l IH]; intros i; simpl; repeat flagsKept_step.
  apply IH.
Qed.

Lemma flagsKept_writePtrComment c : flagsKept (writePtrComment env c).
Proof.
  unfold writePtrComment. pose proof flagsKept_writePointerChain.
  repeat flagsKept_step. apply H.
Qed.

Lemma dumpPtr_flags dump fuel v :
  (forall x wp st, Kind x <> reflect.Ptr -> Kind x <> reflect.Invalid ->
                   hoare typeWritten (dump x wp st) flagsClear) ->
  hoare flagsClear (dumpPtr env h dump fuel v) flagsClear.
Proof.
  intros Hd d d' E [HT HI]. unfold dumpPtr in E.
  destruct (dumpPtrLoop h fuel v 0 [] (purgePointers d)) as [[c d1]| |] eqn:EL;
    [|discriminate|discriminate].
  apply dumpPtrLoop_flags in EL as (T1 & I1 & Hp). simpl in T1, I1.
  apply andThen_Ok in E as (d2 & E2 & E).
  pose proof (writePtrType_valid _ _ _ E2) as Hv.
  apply flagsKept_writePtrType in E2 as [T2 I2].
  apply andThen_Ok in E as (d3 & E3 & E).
  apply flagsKept_writePtrComment in E3 as [T3 I3].
  assert (H3 : flagsClear d3) by (split; congruence).
  destruct (nilFound c).
  { revert E H3. apply flagsKept_flagsClear. repeat flagsKept_step. }
  destruct (cycleFound c).
  { revert E H3. apply flagsKept_flagsClear. repeat flagsKept_step. }
  apply andThen_Ok in E as (d4 & [= <-] & E).
  eapply Hd; [by apply Hp|exact Hv|exact E|]. split; [done|]. apply H3.
Qed.

Lemma dumpUnpacked_typeShown dump x :
  (forall x wp st, hoare typeShown (dump x wp st) typeShown) ->
  hoare typeShown
        (let '(x', wasPtr, static) := unpackValue h x in dump x' wasPtr static)
        typeShown.
Proof. intros Hd. destruct (unpackValue h x) as [[x' wp] st]. apply Hd. Qed.

Lemma dumpSlice_typeShown dump v :
  (forall x wp st, hoare typeShown (dump x wp st) typeShown) ->
  hoare typeShown (dumpSlice env h dump v) typeShown.
Proof.
  intros Hd. unfold dumpSlice.
  destruct (hexBuffer env v) as [[buf|]|msg|].
  - apply flagsKept_typeShown. repeat flagsKept_step.
  - apply hoare_forEach. intros x _.
    pose proof (dumpUnpacked_typeShown dump x Hd).
    destruct (unpackValue h x) as [[x' wp] st].
    eapply hoare_seq; [eassumption|]. apply flagsKept_typeShown, flagsKept_write.
  - intros d d' E. discriminate.
  - intros d d' E. discriminate.
Qed.

Lemma bracket_flagsClear body :
  hoare typeShown body typeShown ->
  hoare flagsClear
        (write openBraceNewlineBytes ;; incDepth ;; body ;; decDepth ;;
         indent ;; write closeBraceBytes)
        flagsClear.
Proof.
  intros Hb.
  eapply hoare_weaken with (P' := typeShown) (Q' := flagsClear);
    [|by intros d [? _]|done].
  eapply hoare_seq; [apply flagsKept_typeShown, flagsKept_write|].
  eapply hoare_seq; [apply flagsKept_typeShown, flagsKept_incDepth|].
  eapply hoare_seq; [exact Hb|].
  eapply hoare_seq; [apply flagsKept_typeShown, flagsKept_decDepth|].
  eapply hoare_seq; [apply indent_clears|].
  apply flagsKept_flagsClear, flagsKept_write.
Qed.

Lemma dumpKind_flags dump v wantType :
  (forall x wp st, hoare typeShown (dump x wp st) typeShown) ->
  hoare flagsClear (dumpKind env h dump v wantType) flagsClear.
Proof.
  intros Hd.
  pose proof (dumpSlice_typeShown dump) as Hs.
  pose proof (dumpUnpacked_typeShown dump) as Hu.
  destruct v as [| | | | | |t k re im| | |t e|t [es|]|t es|t [kvs|]|t fs| |];
    simpl;
    try (apply flagsKept_flagsClear; try destruct k; repeat flagsKept_step; fail).
  - apply bracket_flagsClear. by apply Hs.
  - apply bracket_flagsClear. by apply Hs.
  - apply bracket_flagsClear. apply hoare_withState. intros d0 Hd0.
    eapply hoare_weaken with (P' := typeShown) (Q' := typeShown);
      [|by intros d ->|done].
    apply hoare_forEach. intros key _.
    eapply hoare_seq; [by apply Hu|].
    eapply hoare_seq; [apply flagsKept_typeShown, flagsKept_write|].
    eapply hoare_seq; [apply setIgnoreNextIndent_typeShown|].
    eapply hoare_seq; [by apply Hu|].
    apply flagsKept_typeShown, flagsKept_write.
  - apply bracket_flagsClear. apply hoare_forEach. intros f _.
    apply hoare_withState. intros d0 Hd0.
    eapply hoare_weaken with (P' := typeShown) (Q' := typeShown);
      [|by intros d ->|done].
    destruct (_ && _); [apply flagsKept_typeShown, flagsKept_skip|].
    eapply hoare_seq; [apply indent_typeShown|].
    eapply hoare_seq; [apply flagsKept_typeShown, flagsKept_write|].
    eapply hoare_seq; [apply flagsKept_typeShown, flagsKept_write|].
    eapply hoare_seq; [apply setIgnoreNextIndent_typeShown|].
    eapply hoare_seq; [by apply Hu|].
    apply flagsKept_typeShown, flagsKept_write.
Qed.

Lemma dump_flags fuel :
  forall v wp st,
    hoare typeShown (dump env h fuel v wp st)
          (fun d => ignoreNextType d = false
                    /\ (Kind v <> reflect.Invalid -> ignoreNextIndent d = false))
    /\ (Kind v <> reflect.Ptr -> Kind v <> reflect.Invalid ->
        hoare typeWritten (dump env h fuel v wp st) flagsClear).
Proof.
  induction fuel as [|fuel IH]; intros v wp st.
  { split; [|intros _ _]; intros d d' E; discriminate. }
  assert (Hd1 : forall x wp st,
             hoare typeShown (dump env h fuel x wp st) typeShown).
  { intros x wp' st'. destruct (IH x wp' st') as [H _].
    eapply hoare_weaken; [exact H|done|]. by intros d [? _]. }
  assert (Hd2 : forall x wp st,
             Kind x <> reflect.Ptr -> Kind x <> reflect.Invalid ->
             hoare typeWritten (dump env h fuel x wp st) flagsClear).
  { intros x wp' st'. by destruct (IH x wp' st') as [_ H]. }
  pose proof (dumpPtr_flags (dump env h fuel) fuel v Hd2) as Hp.
  pose proof (fun W => dumpKind_flags (dump env h fuel) v W Hd1) as Hk.
  assert (Hrest : forall wantType,
    hoare flagsClear
      (setIgnoreNextType false ;;
       (if wantType && negb (bareKind (Kind v))
        then write openParenBytes else skip) ;;
       dumpKind env h (dump env h fuel) v wantType ;;
       (if wantType && negb (bareKind (Kind v))
        then write closeParenBytes else skip))
      flagsClear).
  { intros W.
    eapply hoare_seq with (Q := flagsClear).
    { intros d d' [= <-] [_ HI]. by split. }
    eapply hoare_seq; [apply flagsKept_flagsClear; repeat flagsKept_step|].
    eapply hoare_seq; [apply Hk|].
    apply flagsKept_flagsClear; repeat flagsKept_step. }
  simpl. split.
  - destruct (bool_decide (Kind v = reflect.Invalid)) eqn:Hinv.
    { apply bool_decide_eq_true in Hinv. intros d d' [= <-] HT. split; [done|].
      intros Hn. by destruct Hn. }
    eapply hoare_weaken with (P' := typeShown) (Q' := flagsClear);
      [|done|by intros d [? ?]].
    destruct (bool_decide (Kind v = reflect.Ptr)).
    { eapply hoare_seq; [apply indent_clears|apply Hp]. }
    destruct (Type_ v) as [typ|]; [|intros d d' E; discriminate].
    apply hoare_withState. intros d0 Hd0. unfold typeShown in Hd0.
    rewrite Hd0.
    eapply hoare_weaken with (P' := typeShown) (Q' := flagsClear);
      [|by intros d ->|done].
    eapply hoare_seq; [|apply Hrest].
    eapply hoare_seq; [apply indent_clears|].
    apply flagsKept_flagsClear; repeat flagsKept_step.
  - intros Hnp Hni.
    rewrite (bool_decide_eq_false_2 _ Hni), (bool_decide_eq_false_2 _ Hnp).
    destruct (Type_ v) as [typ|]; [|intros d d' E; discriminate].
    apply hoare_withState. intros d0 [HT HI]. rewrite HT.
    eapply hoare_seq with (Q := typeWritten).
    { intros d d' [= <-] ->. by split. }
    eapply hoare_seq with (Q := flagsClear).
    { intros d d' [= <-] [_ HI']. by split. }
    eapply hoare_seq; [apply flagsKept_flagsClear; repeat flagsKept_step|].
    eapply hoare_seq; [apply Hk|].
    apply flagsKept_flagsClear; repeat flagsKept_step.
Qed.

End Flags.

(** X13. The two one-shot flags do not outlive the value they were set
    for: when dump returns from a valid value it was handed with
    ignoreNextType unset, both ignoreNextType and ignoreNextIndent are
    unset, whatever ignoreNextIndent was. *)
Theorem flags_consumed env h fuel v wasPtr static d d' :
  dump env h fuel v wasPtr static d = Ok d' ->
  ignoreNextType d = false ->
  Kind v <> reflect.Invalid ->
  ignoreNextType d' = false /\ ignoreNextIndent d' = false.
Proof.
  intros E HT Hv.
  destruct (dump_flags env h fuel v wasPtr static) as [H _].
  destruct (H d d' E HT) as [H1 H2]. split; [done|]. by apply H2.
Qed.

Lemma flags_consumed_witness :
  exists d',
    dump plainCommon demoHeap 9 sharedInt false false afterKeyState = Ok d'
    /\ ignoreNextType d' = false /\ ignoreNextIndent d' = false.
Proof.
  eexists. split.
  - vm_compute. reflexivity.
  - apply (flags_consumed plainCommon demoHeap 9 sharedInt false false
                          afterKeyState).
    + vm_compute. reflexivity.
    + reflexivity.
    + simpl. discriminate.
Defined.

(** ** What dump writes for a struct *)

Lemma struct_field_rendered env h fuel ti k (f : StructField * Z) d ind :
  ElideType (cs d) = false -> IgnoreUnexported (cs d) = false ->
  ignoreNextType d = false -> ignoreNextIndent d = false ->
  bytesRepeat (Indent (cs d)) (depth d) = Some ind ->
  (indent ;; write (Name (fst f)) ;; write colonSpaceBytes ;;
   setIgnoreNextIndent true ;;
   (let '(x', wasPtr, static) := unpackValue h (VInt ti k (snd f)) in
    dump env h (S fuel) x' wasPtr static) ;;
   write commaNewlineBytes) d
  = Ok (appendW (fieldLine env ind ti f) d).
Proof.
  intros He Hx Ht Hi Hb.
  assert (Hu : unpackValue h (VInt ti k (snd f))
               = (VInt ti k (snd f), false, true)) by (by destruct k).
  rewrite Hu.
  destruct d as [w0 n m it ii c ns]; simpl in *; subst.
  unfold andThen, indent, withState. simpl. rewrite Hb. simpl.
  destruct k; simpl; unfold withState, wantTypeOf; simpl; rewrite He; simpl;
    unfold andThen, indent, withState; simpl;
    rewrite writeAll_eq; simpl;
    unfold write, appendW, fieldLine, typeName; simpl;
    rewrite <- ?app_assoc; simpl; reflexivity.
Qed.

Lemma struct_fields_loop env h fuel ti k ind :
  forall fs d,
    ElideType (cs d) = false -> IgnoreUnexported (cs d) = false ->
    ignoreNextType d = false -> ignoreNextIndent d = false ->
    bytesRepeat (Indent (cs d)) (depth d) = Some ind ->
    forEach (fun f : StructField * Value => withState (fun d =>
               if IgnoreUnexported (cs d)
                  && negb (String.eqb (PkgPath (fst f)) "")
               then skip
               else
                 indent ;; write (Name (fst f)) ;; write colonSpaceBytes ;;
                 setIgnoreNextIndent true ;;
                 (let '(x', wasPtr, static) := unpackValue h (snd f) in
                  dump env h (S fuel) x' wasPtr static) ;;
                 write commaNewlineBytes))
            (intFields ti k fs) d
    = Ok (appendW (concat (map (fieldLine env ind ti) fs)) d).
Proof.
  induction fs as [|f fs IH]; intros d He Hx Ht Hi Hb; simpl.
  - by rewrite appendW_nil.
  - erewrite andThen_eq.
    2:{ unfold withState. rewrite Hx. simpl.
        by apply (struct_field_rendered env h fuel ti k f d ind). }
    rewrite IH by done. by rewrite appendW_app.
Qed.

(** X14. Without type elision and with IgnoreUnexported off, a struct of
    signed integer fields is rendered as its indentation and type name, an
    opening brace ending the line, one line per field in the order of the
    fields (the indentation of one level more, the name, a colon, and on the
    same line the value with its type, then a comma), and the closing brace
    at the indentation of the opening; the state is otherwise as before. *)
Theorem struct_fields_rendered env h fuel wasPtr static d ind ind' t ti k fs :
  ElideType (cs d) = false -> IgnoreUnexported (cs d) = false ->
  ignoreNextType d = false -> ignoreNextIndent d = false ->
  bytesRepeat (Indent (cs d)) (depth d) = Some ind ->
  bytesRepeat (Indent (cs d)) (depth d + 1) = Some ind' ->
  dump env h (S (S fuel)) (VStruct t (intFields ti k fs)) wasPtr static d
  = Ok (appendW ([ind; typeName t; openBraceNewlineBytes]
                 ++ concat (map (fieldLine env ind' ti) fs)
                 ++ [ind; closeBraceBytes]) d).
Proof.
  intros He Hx Ht Hi Hb Hb'.
  change (dump env h (S (S fuel)) (VStruct t (intFields ti k fs)) wasPtr static d)
    with (withState (fun d0 =>
            let wantType := wantTypeOf (cs d0) (VStruct t (intFields ti k fs)) t
                                       wasPtr static in
            (if ignoreNextType d0 then skip
             else indent ;;
                  if wantType then write (typeName t) else skip) ;;
            setIgnoreNextType false ;;
            (if wantType && negb (bareKind reflect.Struct)
             then write openParenBytes else skip) ;;
            dumpKind env h (dump env h (S fuel)) (VStruct t (intFields ti k fs))
                     wantType ;;
            (if wantType && negb (bareKind reflect.Struct)
             then write closeParenBytes else skip)) d).
  unfold withState. rewrite wantTypeOf_compound by reflexivity. rewrite Ht.
  cbn [bareKind negb andb dumpKind].
  pose proof (struct_fields_loop env h fuel ti k ind' fs) as HL.
  remember (dump env h (S fuel)) as dmp eqn:Hdmp. clear Hdmp.
  destruct d as [w0 n m it ii c ns]; simpl in *; subst.
  unfold andThen at 1. unfold andThen at 1. unfold indent at 1, withState at 1.
  simpl. rewrite Hb. simpl.
  unfold andThen at 1. simpl. unfold andThen at 1. simpl.
  unfold andThen at 1. simpl. unfold andThen at 1. simpl.
  unfold andThen at 1. simpl.
  erewrite andThen_eq; [|by apply HL]. simpl.
  unfold andThen, indent, withState, decDepth, setDepth. simpl.
  rewrite Z.add_simpl_r, Hb. simpl.
  unfold appendW. simpl. rewrite <- ?app_assoc. simpl. reflexivity.
Qed.

Lemma struct_fields_rendered_witness :
  dump plainCommon demoHeap 2
       (VStruct (namedType "main" "S")
                (intFields (basicType "int") KInt twoIntFields))
       false false insideState
  = Ok (appendW ([" "; typeName (namedType "main" "S"); openBraceNewlineBytes]
                 ++ concat (map (fieldLine plainCommon "  " (basicType "int"))
                                twoIntFields)
                 ++ [" "; closeBraceBytes]) insideState).
Proof.
  apply (struct_fields_rendered plainCommon demoHeap 0 false false insideState
           " " "  " (namedType "main" "S") (basicType "int") KInt twoIntFields);
    reflexivity.
Defined.

(** ** What dump writes for a pointer to an integer *)

Lemma wantTypeOf_deref c typ k i :
  wantTypeOf c (VInt typ k i) typ true false = true.
Proof. unfold wantTypeOf. destruct (ElideType c); [|done]. by destruct k. Qed.

(** X15. A pointer that is not nil, whose address is not taken for an
    ancestor and which points at a signed integer is rendered as the
    indentation, one ampersand, the type of the integer, the address comment
    if CommentPointers is set, and the value between parentheses, whether
    ElideType is set or not; its address is then in the table at the
    current depth. *)
Theorem pointer_to_int_rendered env h fuel t a ti k i star wasPtr static d ind :
  h a = VInt ti k i ->
  cycleAt d a = false ->
  firstIsStar (tString ti) = Some star ->
  ignoreNextType d = false -> ignoreNextIndent d = false ->
  bytesRepeat (Indent (cs d)) (depth d) = Some ind ->
  dump env h (S (S fuel)) (VPtr t (Some a)) wasPtr static d
  = Ok (appendW ([ind; ampersandBytes] ++ typeChunks ti star
                 ++ pointerComment env (cs d) a
                 ++ [openParenBytes] ++ printInt env i 10 ++ [closeParenBytes])
                (recordPointer a (purgePointers d))).
Proof.
  intros Hh Hc Hs Ht Hi Hb.
  change (dump env h (S (S fuel)) (VPtr t (Some a)) wasPtr static d)
    with ((indent ;; dumpPtr env h (dump env h (S fuel)) (S fuel)
                             (VPtr t (Some a))) d).
  erewrite andThen_eq; [|by apply indent_eq].
  unfold dumpPtr.
  assert (EL : dumpPtrLoop h (S fuel) (VPtr t (Some a)) 0 []
                 (purgePointers (appendW [ind] d))
               = Ok (mkChain (VInt ti k i) 1
                       (if CommentPointers (cs d) then [a] else []) false false,
                     recordPointer a (purgePointers (appendW [ind] d)))).
  { simpl. rewrite cycleAt_purge.
    change (cycleAt (appendW [ind] d) a) with (cycleAt d a). rewrite Hc.
    rewrite Hh. destruct k; simpl; destruct fuel; simpl;
      by destruct (CommentPointers (cs d)). }
  rewrite EL. clear EL.
  erewrite andThen_eq;
    [|apply (writePtrType_eq _ ti star); [simpl; lia | by destruct k | exact Hs]].
  cbn [ve indirects pointerChain nilFound cycleFound].
  assert (EC : forall d0, cs d0 = cs d ->
             writePtrComment env
               (mkChain (VInt ti k i) 1
                  (if CommentPointers (cs d) then [a] else []) false false) d0
             = Ok (appendW (pointerComment env (cs d) a) d0)).
  { intros d0 _. unfold writePtrComment, pointerComment. simpl.
    destruct (CommentPointers (cs d)); simpl; run_writes.
    all: try (do 2 f_equal; simpl; by rewrite <- ?app_assoc).
    by rewrite appendW_nil. }
  erewrite andThen_eq; [|by apply EC]. clear EC.
  destruct d as [w0 n m it ii c ns]; simpl in *; subst.
  unfold andThen. simpl.
  destruct k; simpl; unfold withState; rewrite wantTypeOf_deref; simpl;
    unfold andThen; simpl; rewrite writeAll_eq; simpl;
    unfold write, appendW, recordPointer, purgePointers, setPointers; simpl;
    rewrite <- ?app_assoc; simpl; reflexivity.
Qed.

Lemma pointer_to_int_rendered_witness :
  dump plainCommon demoHeap 2 (VPtr ptrToInt (Some 32)) false false insideState
  = Ok (appendW ([" "; ampersandBytes] ++ typeChunks (basicType "int") false
                 ++ pointerComment plainCommon (cs insideState) 32
                 ++ [openParenBytes] ++ printInt plainCommon 1 10
                 ++ [closeParenBytes])
                (recordPointer 32 (purgePointers insideState))).
Proof.
  apply (pointer_to_int_rendered plainCommon demoHeap 0 ptrToInt 32
           (basicType "int") KInt 1 false false false insideState " ");
    reflexivity.
Defined.


(** ** The rendering of a pointer chain, write by write *)

(** A value has one chain at most: the levels, the value the chain ends
    at and the way it ends are determined. *)
Lemma chainLevels_unique h d v addrs vf e :
  chainLevels h d v addrs vf e ->
  forall addrs' vf' e',
    chainLevels h d v addrs' vf' e' ->
    addrs' = addrs /\ vf' = vf /\ e' = e.
Proof.
  induction 1 as [v Hk|t|t a Hc|t a ti Hc Hh|t a ti x addrs vf e Hc Hh _ IH
                  |t a addrs vf e Hc Hh _ IH];
    intros addrs' vf' e' H'; inversion H'; subst; try done;
    try congruence.
  all: try (match goal with
            | H1 : ?hh ?a = VInterface _ _, H2 : ?hh ?a = VInterface _ _ |- _ =>
                rewrite H1 in H2; inversion H2; subst
            end).
  all: try (match goal with
            | H1 : ?hh ?a = VInterface _ _, H2 : Kind (?hh ?a) <> _ |- _ =>
                rewrite H1 in H2; by destruct H2
            end).
  all: try (match goal with
            | H : chainLevels _ _ _ _ _ _ |- _ =>
                apply IH in H as (-> & -> & ->); done
            end).
  all: done.
Qed.


Lemma recordAll_appendW o addrs d :
  recordAll addrs (appendW o d) = appendW o (recordAll addrs d).
Proof.
  revert d. induction addrs as [|a addrs IH]; intros d; simpl; [done|].
  by rewrite <- IH.
Qed.







(** ** Type elision, in what dump writes *)











